(** * Beacon placement: equally spaced integer coordinates around a centerpoint

    A shallow embedding of [beacon_placer.py] and the properties of its
    specification.

    Modelling choices.
    - A Python [int] is a [Z]; a Python [float] is a real number of the
      Standard Library, with exact arithmetic and the real square root,
      sine, cosine and tangent.  The two are kept apart in the type [num],
      because [distance_to_centerpoint] tests [isinstance(x, int)] and
      because [ceil], [floor] and [round] return ints.
    - Limits of the real-number model.  The rounding of binary64 is not
      modelled, so the model and the program differ where a rounding error
      decides a comparison:
      - [angle_of]: [(360 / count) * (i + 1)] is exact here; in binary64
        it can miss an axis angle by an ulp (89.99999999999999 for
        count 156, index 38) or exceed 360 in the last iteration
        (360.00000000000006 for count 169), which then ends with the
        [TypeError] of an angle of 360 degrees or more;
      - [in_bounds], [distance_between_two_points]: a scanned point whose
        exact distance equals a bound (angles that are multiples of 30
        degrees, such as [(1, sqrt 3)] at radius 2) is dropped here; in
        binary64 the rounded slope decides;
      - [truediv], [Py.tan]: [slope * (y / slope) = y] and
        [tan (360 - d) = - tan d] hold here, and hold in binary64 only up
        to rounding;
      - overflow (coordinates of about 1e154 and more) is not modelled.
      The statements about the scans and the selection are written so as
      not to rest on these identities: they speak of the operations the
      program performs (the slope it computed, the square root of the sum
      of the squares) and compare their results as the program does.  The
      calls that are evaluated (3, 5 and 9 points) have angles that
      binary64 represents exactly, and their candidates are away from the
      bounds and from ties.
    - [count], [minimum] and [maximum] are ints, as annotated; [offset] is a
      pair of numbers.
    - A two-element list [[x, y]] is a pair [point].
    - A generator is the list of the values it yields, in order.
    - An exception is a value of [exn]; a function that may raise returns
      a [res]. *)

From Stdlib Require Import Reals Ratan Machin Rtrigo_facts.
From Stdlib Require Import ZArith List Bool Lia Lra Psatz.
From Stdlib Require Import Sorted Permutation.
Import ListNotations.

Local Open Scope R_scope.

(* ================================================================== *)
(** ** Python numbers and the builtins the module uses *)

Module Py.

(** A Python number: an int or a float. *)
Inductive num : Type :=
| PInt (z : Z)
| PFloat (r : R).

(** The real value of a number; comparisons between ints and floats are by
    value. *)
Definition val (n : num) : R :=
  match n with
  | PInt z => IZR z
  | PFloat r => r
  end.

(** [isinstance(n, int)] *)
Definition is_int (n : num) : bool :=
  match n with
  | PInt _ => true
  | PFloat _ => false
  end.

Definition Rltb (a b : R) : bool := if Rlt_dec a b then true else false.
Definition Reqb (a b : R) : bool := if Req_dec_T a b then true else false.

(** [a < b], [a > b], [a == b] *)
Definition lt (a b : num) : bool := Rltb (val a) (val b).
Definition gt (a b : num) : bool := lt b a.
Definition eq (a b : num) : bool := Reqb (val a) (val b).

(** [a + b], [a - b], [a * b]: an int when both operands are ints, a float
    otherwise. *)
Definition add (a b : num) : num :=
  match a, b with
  | PInt x, PInt y => PInt (x + y)
  | _, _ => PFloat (val a + val b)
  end.

Definition sub (a b : num) : num :=
  match a, b with
  | PInt x, PInt y => PInt (x - y)
  | _, _ => PFloat (val a - val b)
  end.

Definition mul (a b : num) : num :=
  match a, b with
  | PInt x, PInt y => PInt (x * y)
  | _, _ => PFloat (val a * val b)
  end.

(** [a / b]: true division, always a float.  Both uses in the module have a
    divisor that is not zero (see [y_generator] and [angle_of]). *)
Definition truediv (a b : num) : num := PFloat (val a / val b).

(** [a ** 2] *)
Definition sq (a : num) : num :=
  match a with
  | PInt x => PInt (x ^ 2)
  | PFloat r => PFloat (r ^ 2)
  end.

(** [abs(a)] *)
Definition abs (a : num) : num :=
  match a with
  | PInt x => PInt (Z.abs x)
  | PFloat r => PFloat (Rabs r)
  end.

(** [math.sqrt], [math.radians], [math.tan], [math.cos], [math.sin]: floats.
    Every argument of [math.sqrt] in the module is a sum of two squares, so
    its [ValueError] for a negative argument does not occur. *)
Definition sqrt (a : num) : num := PFloat (R_sqrt.sqrt (val a)).
Definition radians (a : num) : num := PFloat (val a * (PI / 180)).
Definition tan (a : num) : num := PFloat (Rtrigo1.tan (val a)).
Definition cos (a : num) : num := PFloat (Rtrigo_def.cos (val a)).
Definition sin (a : num) : num := PFloat (Rtrigo_def.sin (val a)).

(** [math.ceil] and [math.floor]: ints. *)
Definition ceil (a : num) : Z :=
  match a with
  | PInt x => x
  | PFloat r => Zceil r
  end.

Definition floor (a : num) : Z :=
  match a with
  | PInt x => x
  | PFloat r => Zfloor r
  end.

(** [round(r)] of a float: the nearest integer, a tie going to the even
    neighbour. *)
Definition round_half_even (r : R) : Z :=
  let f := Zfloor r in
  let d := r - IZR f in
  if Rltb d (1 / 2) then f
  else if Rltb (1 / 2) d then (f + 1)%Z
  else if Z.even f then f else (f + 1)%Z.

(** [round(a)]: an int. *)
Definition round (a : num) : Z :=
  match a with
  | PInt x => x
  | PFloat r => round_half_even r
  end.

(** [len(range(start, stop, step))] and [list(range(start, stop, step))]. *)
Definition range_len (start stop step : Z) : Z :=
  if (0 <? step)%Z then
    if (start <? stop)%Z then ((stop - start - 1) / step + 1)%Z else 0%Z
  else if (step <? 0)%Z then
    if (stop <? start)%Z then ((start - stop - 1) / (- step) + 1)%Z else 0%Z
  else 0%Z.

Definition range (start stop step : Z) : list Z :=
  map (fun k => (start + Z.of_nat k * step)%Z)
      (seq 0 (Z.to_nat (range_len start stop step))).

(** [min(a, b, ...)]: the first of the smallest arguments. *)
Definition min (a : num) (rest : list num) : num :=
  fold_left (fun m x => if lt x m then x else m) rest a.

(** [k1 < k2] on two-element tuples: the first components decide unless
    they are equal. *)
Definition tuple_lt (k1 k2 : num * num) : bool :=
  if eq (fst k1) (fst k2) then lt (snd k1) (snd k2)
  else lt (fst k1) (fst k2).

(** [l.sort(key=key)]: a stable sort, ascending in the key. *)
Section Sort.
Context {A : Type} (key : A -> num * num).

Fixpoint insert (x : A) (l : list A) : list A :=
  match l with
  | [] => [x]
  | y :: l' =>
      if tuple_lt (key y) (key x) then y :: insert x l'
      else x :: y :: l'
  end.

Fixpoint sort (l : list A) : list A :=
  match l with
  | [] => []
  | x :: l' => insert x (sort l')
  end.
End Sort.

(** Exceptions that leave [coordinate_placement]. *)
Inductive exn : Type :=
| IndexError
| TypeError
| Warning.

Inductive res (A : Type) : Type :=
| Ok (a : A)
| Raise (e : exn).

Arguments Ok {A} a.
Arguments Raise {A} e.

Definition bind {A B : Type} (m : res A) (k : A -> res B) : res B :=
  match m with
  | Ok a => k a
  | Raise e => Raise e
  end.

End Py.

Import Py.

Notation "x <- m ;; k" := (bind m (fun x => k))
  (at level 61, m at next level, right associativity).

(* ================================================================== *)
(** ** The module [beacon_placer] *)

(** A coordinate [[x, y]]. *)
Definition point : Type := (num * num)%type.

Definition origin : point := (PInt 0, PInt 0).

Definition distance_between_two_points (c1 c2 : point) : num :=
  let '(x1, y1) := c1 in
  let '(x2, y2) := c2 in
  Py.sqrt (add (sq (sub x2 x1)) (sq (sub y2 y1))).

Definition distance_to_centerpoint (x y : num) : num :=
  if is_int x && is_int y then PInt 0
  else
    let round_up_x := PInt (ceil x) in
    let round_up_y := PInt (ceil y) in
    let round_down_x := PInt (floor x) in
    let round_down_y := PInt (floor y) in
    let distance_tr :=
      Py.sqrt (add (sq (sub x round_up_x)) (sq (sub y round_up_y))) in
    let distance_tl :=
      Py.sqrt (add (sq (sub x round_down_x)) (sq (sub y round_up_y))) in
    let distance_bl :=
      Py.sqrt (add (sq (sub x round_down_x)) (sq (sub y round_down_y))) in
    let distance_br :=
      Py.sqrt (add (sq (sub x round_up_x)) (sq (sub y round_down_y))) in
    Py.min distance_tr [distance_bl; distance_tl; distance_br].

(** The test both generators apply to the distance of a scanned point. *)
Definition in_bounds (lower_bounds upper_bounds : Z) (distance : num) : bool :=
  lt distance (abs (PInt upper_bounds))
  && gt distance (abs (PInt lower_bounds)).

(** [x_generator]; [angle] is the slope of the ray.  The [debug] flag only
    prints and is left out. *)
Definition x_generator (lower upper lower_bounds upper_bounds : Z)
    (angle : num) (step : Z) : list point :=
  flat_map
    (fun x =>
       let y := mul angle (PInt x) in
       let distance := distance_between_two_points origin (PInt x, y) in
       if in_bounds lower_bounds upper_bounds distance
       then [(PInt x, mul angle (PInt x))]
       else [])
    (range lower upper step).

Definition y_generator (lower upper lower_bounds upper_bounds : Z)
    (angle : num) (step : Z) : list point :=
  flat_map
    (fun y =>
       let x := if eq angle (PInt 0) then PInt 0
                else truediv (PInt y) angle in
       let distance := distance_between_two_points origin (x, PInt y) in
       if in_bounds lower_bounds upper_bounds distance
       then [(x, PInt y)]
       else [])
    (range lower upper step).

(** [coordinate_generator]: the two scans of the quadrant of [angle_deg], or
    [None] when no branch returns. *)
Definition coordinate_generator (lower_bounds upper_bounds : Z)
    (angle_deg : num) : option (list (list point)) :=
  let angle_tan := Py.tan (radians angle_deg) in
  if lt angle_deg (PInt 90) then
    Some [ x_generator 1 upper_bounds lower_bounds upper_bounds angle_tan 1;
           y_generator 1 upper_bounds lower_bounds upper_bounds angle_tan 1 ]
  else if lt angle_deg (PInt 180) then
    Some [ x_generator (-1) (- upper_bounds) lower_bounds upper_bounds
             angle_tan (-1);
           y_generator 1 upper_bounds lower_bounds upper_bounds angle_tan 1 ]
  else if lt angle_deg (PInt 270) then
    Some [ x_generator (-1) (- upper_bounds) lower_bounds upper_bounds
             angle_tan (-1);
           y_generator (-1) (- upper_bounds) lower_bounds upper_bounds
             angle_tan (-1) ]
  else if lt angle_deg (PInt 360) then
    Some [ x_generator 1 upper_bounds lower_bounds upper_bounds angle_tan 1;
           y_generator (-1) (- upper_bounds) lower_bounds upper_bounds
             angle_tan (-1) ]
  else None.

(** [custom_sort]: the sort key of an item [(p_key, coordinates)]. *)
Definition custom_sort (item : num * point) : num * num :=
  let p_key := fst item in
  let coordinates := snd item in
  let s_key := distance_between_two_points origin coordinates in
  (p_key, s_key).

(** [epsilon = 1e-10] *)
Definition epsilon : num := PFloat (1 / 10 ^ 10).

Definition axis_angles : list num :=
  [PInt 0; PInt 90; PInt 180; PInt 270; PInt 360].

(** [angle_deg in [0, 90, 180, 270, 360]] *)
Definition on_axis (angle_deg : num) : bool :=
  existsb (eq angle_deg) axis_angles.

(** The body of the axis branch, up to its [continue]: at most one point is
    appended, at the radius [lower_bounds]. *)
Definition axis_case (lower_bounds : Z) (angle_deg : num)
    (result : list point) : list point :=
  let x := Py.cos (radians angle_deg) in
  let y := Py.sin (radians angle_deg) in
  if lt (abs y) epsilon then
    if gt x (PInt 0) then result ++ [(PInt lower_bounds, PInt 0)]
    else result ++ [(PInt (- lower_bounds), PInt 0)]
  else if lt (abs x) epsilon then
    if gt y (PInt 0) then result ++ [(PInt 0, PInt lower_bounds)]
    else result ++ [(PInt 0, PInt (- lower_bounds))]
  else result.

(** The candidate pool of an angle: [list(chain.from_iterable(points))]. *)
Definition pool_of (gens : list (list point)) : list point := concat gens.

(** The candidates paired with their distance to the nearest lattice
    point, sorted: [arr] after [arr.sort(key=custom_sort)]. *)
Definition sorted_candidates (points : list point) : list (num * point) :=
  let tolerance_array :=
    map (fun p => distance_to_centerpoint (fst p) (snd p)) points in
  let arr := combine tolerance_array points in
  sort custom_sort arr.

(** [[round(num) for num in coordinates]] *)
Definition round_point (coordinates : point) : point :=
  (PInt (round (fst coordinates)), PInt (round (snd coordinates))).

(** The rest of the loop body, for an angle that is not on an axis.
    Iterating [None] raises [TypeError]; [arr[0]] of an empty list raises
    [IndexError]. *)
Definition general_case (lower_bounds upper_bounds : Z) (angle_deg : num)
    (result : list point) : res (list point) :=
  match coordinate_generator lower_bounds upper_bounds angle_deg with
  | None => Raise TypeError
  | Some gens =>
      match sorted_candidates (pool_of gens) with
      | [] => Raise IndexError
      | item :: _ => Ok (result ++ [round_point (snd item)])
      end
  end.

(** [angle_deg = (360 / count) * (i + 1)] *)
Definition angle_of (count i : Z) : num :=
  mul (truediv (PInt 360) (PInt count)) (PInt (i + 1)).

(** The loop body for one angle: the axis branch ends with [continue]. *)
Definition place_angle (lower_bounds upper_bounds : Z) (angle_deg : num)
    (result : list point) : res (list point) :=
  if on_axis angle_deg then Ok (axis_case lower_bounds angle_deg result)
  else general_case lower_bounds upper_bounds angle_deg result.

(** One iteration of the loop over [range(count)]. *)
Definition loop_body (lower_bounds upper_bounds count : Z) (i : Z)
    (result : list point) : res (list point) :=
  let angle_deg := angle_of count i in
  place_angle lower_bounds upper_bounds angle_deg result.

(** A [for] loop whose body may raise. *)
Fixpoint for_each (body : Z -> list point -> res (list point))
    (indices : list Z) (result : list point) : res (list point) :=
  match indices with
  | [] => Ok result
  | i :: rest => result' <- body i result ;; for_each body rest result'
  end.

(** The points before the offset is applied. *)
Definition placed_points (count minimum maximum : Z) : res (list point) :=
  for_each (loop_body minimum maximum count) (range 0 count 1) [].

Definition apply_offset (offset : point) (result : list point) : list point :=
  map (fun p => (add (fst p) (fst offset), add (snd p) (snd offset))) result.

Definition coordinate_placement (count : Z) (offset : point)
    (minimum maximum : Z) : res (list point) :=
  result <- placed_points count minimum maximum ;;
  let result := apply_offset offset result in
  if (Z.of_nat (length result) =? count)%Z then Ok result
  else Raise Warning.

(* ================================================================== *)
(** ** Notions used in the statements *)

(** The squared distance of a point from the origin. *)
Definition norm2 (p : point) : R := val (fst p) ^ 2 + val (snd p) ^ 2.

(** The distance of a point from the origin, as the generators compute it. *)
Definition dist (p : point) : R :=
  val (distance_between_two_points origin p).

(** The sort key of a candidate point. *)
Definition candidate_key (c : point) : num * num :=
  custom_sort (distance_to_centerpoint (fst c) (snd c), c).

(** The order of the keys: first components, then second components. *)
Definition key_le (k1 k2 : num * num) : Prop :=
  val (fst k1) < val (fst k2)
  \/ (val (fst k1) = val (fst k2) /\ val (snd k1) <= val (snd k2)).

(** The first element of a list is least when every element is at least
    it. *)
Definition head_least {A : Type} (key : A -> num * num) (l : list A) : Prop :=
  match l with
  | [] => True
  | h :: _ => forall y, In y l -> key_le (key h) (key y)
  end.

(** The point of an axis angle, by the angle. *)
Definition axis_point (lower_bounds : Z) (a : R) : point :=
  if Reqb a 90 then (PInt 0, PInt lower_bounds)
  else if Reqb a 180 then (PInt (- lower_bounds), PInt 0)
  else if Reqb a 270 then (PInt 0, PInt (- lower_bounds))
  else (PInt lower_bounds, PInt 0).

(** The four lattice points around [(x, y)]. *)
Definition lattice_neighbours (x y : num) : list point :=
  [ (PInt (ceil x), PInt (ceil y));
    (PInt (floor x), PInt (ceil y));
    (PInt (floor x), PInt (floor y));
    (PInt (ceil x), PInt (floor y)) ].

(** The integers the x-scan and the y-scan of an angle run over, by
    quadrant. *)
Definition x_scanned (a : R) (upper_bounds x : Z) : Prop :=
  ((0 < a < 90 \/ 270 < a < 360) /\ (1 <= x < upper_bounds)%Z)
  \/ (90 < a < 270 /\ (- upper_bounds < x <= -1)%Z).

Definition y_scanned (a : R) (upper_bounds y : Z) : Prop :=
  (0 < a < 180 /\ (1 <= y < upper_bounds)%Z)
  \/ (180 < a < 360 /\ (- upper_bounds < y <= -1)%Z).

(** The slope [tan(radians(angle_deg))] of an angle. *)
Definition slope_of (a : num) : R := val (Py.tan (radians a)).

(** The distance from a real number to the nearest integer. *)
Definition integer_gap (u : R) : R :=
  Rmin (u - IZR (Zfloor u)) (IZR (Zceil u) - u).

(** A point moved by an offset, as the last comprehension of
    [coordinate_placement] does. *)
Definition shift (offset p : point) : point :=
  (add (fst p) (fst offset), add (snd p) (snd offset)).

(** The Euclidean distance of a point from the origin, and its distance
    to the nearest point with integer coordinates, written out. *)
Definition origin_distance (p : point) : R :=
  R_sqrt.sqrt (val (fst p) ^ 2 + val (snd p) ^ 2).



(** The signs of the two coordinates in the open quadrant of an angle, and
    of two integers in its closed quadrant. *)
Definition in_quadrant (a u v : R) : Prop :=
  (0 < a < 90 /\ 0 < u /\ 0 < v)
  \/ (90 < a < 180 /\ u < 0 /\ 0 < v)
  \/ (180 < a < 270 /\ u < 0 /\ v < 0)
  \/ (270 < a < 360 /\ 0 < u /\ v < 0).

Definition in_closed_quadrant (a : R) (x y : Z) : Prop :=
  (0 < a < 90 /\ (0 <= x)%Z /\ (0 <= y)%Z)
  \/ (90 < a < 180 /\ (x <= 0)%Z /\ (0 <= y)%Z)
  \/ (180 < a < 270 /\ (x <= 0)%Z /\ (y <= 0)%Z)
  \/ (270 < a < 360 /\ (0 <= x)%Z /\ (y <= 0)%Z).

(* ================================================================== *)
(** ** Facts about the Python layer *)

Lemma Rltb_true (a b : R) : Rltb a b = true <-> a < b.
Proof. unfold Rltb; destruct (Rlt_dec a b); split; intros; try easy. Qed.

Lemma Rltb_false (a b : R) : Rltb a b = false <-> b <= a.
Proof.
  unfold Rltb; destruct (Rlt_dec a b); split; intros; try easy; lra.
Qed.

Lemma Reqb_true (a b : R) : Reqb a b = true <-> a = b.
Proof. unfold Reqb; destruct (Req_dec_T a b); split; intros; easy. Qed.

Lemma Reqb_false (a b : R) : Reqb a b = false <-> a <> b.
Proof. unfold Reqb; destruct (Req_dec_T a b); split; intros; easy. Qed.

Lemma lt_true (a b : num) : lt a b = true <-> val a < val b.
Proof. apply Rltb_true. Qed.

Lemma lt_false (a b : num) : lt a b = false <-> val b <= val a.
Proof. apply Rltb_false. Qed.

Lemma eq_true (a b : num) : eq a b = true <-> val a = val b.
Proof. apply Reqb_true. Qed.

Lemma eq_false (a b : num) : eq a b = false <-> val a <> val b.
Proof. apply Reqb_false. Qed.

Lemma val_add (a b : num) : val (add a b) = val a + val b.
Proof. destruct a, b; simpl; auto using plus_IZR. Qed.

Lemma val_sub (a b : num) : val (sub a b) = val a - val b.
Proof. destruct a, b; simpl; auto using minus_IZR. Qed.

Lemma val_mul (a b : num) : val (mul a b) = val a * val b.
Proof. destruct a, b; simpl; auto using mult_IZR. Qed.

Lemma val_sq (a : num) : val (sq a) = (val a) ^ 2.
Proof.
  destruct a; unfold sq, val; auto.
  rewrite Z.pow_2_r, mult_IZR; ring.
Qed.

Lemma val_abs (a : num) : val (abs a) = Rabs (val a).
Proof. destruct a; simpl; auto using abs_IZR. Qed.

Lemma val_distance (c1 c2 : point) :
  val (distance_between_two_points c1 c2)
  = R_sqrt.sqrt ((val (fst c2) - val (fst c1)) ^ 2
                 + (val (snd c2) - val (snd c1)) ^ 2).
Proof.
  destruct c1 as [x1 y1], c2 as [x2 y2]; simpl.
  now rewrite val_add, !val_sq, !val_sub.
Qed.

Lemma val_distance_origin (p : point) :
  val (distance_between_two_points origin p)
  = R_sqrt.sqrt ((val (fst p)) ^ 2 + (val (snd p)) ^ 2).
Proof.
  rewrite val_distance; simpl; f_equal; ring.
Qed.

(** *** Ranges *)

Lemma range_up (a b x : Z) :
  In x (range a b 1) <-> (a <= x < b)%Z.
Proof.
  unfold range, range_len.
  destruct (Z.ltb_spec 0 1) as [_ | H01]; [| lia].
  rewrite in_map_iff.
  destruct (Z.ltb_spec a b) as [Hab | Hab].
  - rewrite Z.div_1_r.
    split.
    + intros (k & <- & Hk). apply in_seq in Hk. lia.
    + intros Hx. exists (Z.to_nat (x - a)). split; [lia |].
      apply in_seq. lia.
  - simpl. split; [intros (k & _ & []) | lia].
Qed.

Lemma range_down (a b x : Z) :
  In x (range a b (-1)) <-> (b < x <= a)%Z.
Proof.
  unfold range, range_len.
  destruct (Z.ltb_spec 0 (-1)) as [H01 | _]; [lia |].
  destruct (Z.ltb_spec (-1) 0) as [_ | H01]; [| lia].
  rewrite in_map_iff.
  destruct (Z.ltb_spec b a) as [Hab | Hab].
  - change (- -1)%Z with 1%Z. rewrite Z.div_1_r.
    split.
    + intros (k & <- & Hk). apply in_seq in Hk. lia.
    + intros Hx. exists (Z.to_nat (a - x)). split; [lia |].
      apply in_seq. lia.
  - simpl. split; [intros (k & _ & []) | lia].
Qed.

Lemma range_length_nonneg (count : Z) :
  (0 <= count)%Z -> Z.of_nat (length (range 0 count 1)) = count.
Proof.
  intros H. unfold range, range_len. rewrite length_map, length_seq.
  destruct (Z.ltb_spec 0 1) as [_ | H01]; [| lia].
  destruct (Z.ltb_spec 0 count); [rewrite Z.div_1_r |]; lia.
Qed.

(** *** The bounds test, as an inequality between squares *)

Lemma sqrt_lt_abs (s : R) (b : Z) :
  0 <= s -> (R_sqrt.sqrt s < Rabs (IZR b) <-> s < IZR b ^ 2).
Proof.
  intros Hs.
  assert (Hb : 0 <= Rabs (IZR b)) by apply Rabs_pos.
  assert (Hq : Rabs (IZR b) ^ 2 = IZR b ^ 2).
  { rewrite <- !Rsqr_pow2. symmetry. apply Rsqr_abs. }
  rewrite <- Hq.
  rewrite <- (sqrt_pow2 (Rabs (IZR b))) at 1 by assumption.
  split.
  - intros H. apply sqrt_lt_0_alt in H. exact H.
  - intros H. apply sqrt_lt_1_alt. lra.
Qed.

Lemma abs_lt_sqrt (s : R) (b : Z) :
  0 <= s -> (Rabs (IZR b) < R_sqrt.sqrt s <-> IZR b ^ 2 < s).
Proof.
  intros Hs.
  assert (Hb : 0 <= Rabs (IZR b)) by apply Rabs_pos.
  assert (Hq : Rabs (IZR b) ^ 2 = IZR b ^ 2).
  { rewrite <- !Rsqr_pow2. symmetry. apply Rsqr_abs. }
  rewrite <- Hq.
  rewrite <- (sqrt_pow2 (Rabs (IZR b))) at 1 by assumption.
  assert (Hp : 0 <= Rabs (IZR b) ^ 2) by nra.
  split.
  - intros H. apply sqrt_lt_0_alt in H. exact H.
  - intros H. apply sqrt_lt_1_alt. lra.
Qed.

Lemma norm2_nonneg (p : point) : 0 <= norm2 p.
Proof. unfold norm2. nra. Qed.

Lemma in_bounds_iff (lower_bounds upper_bounds : Z) (p : point) :
  in_bounds lower_bounds upper_bounds (distance_between_two_points origin p)
  = true
  <-> IZR lower_bounds ^ 2 < norm2 p < IZR upper_bounds ^ 2.
Proof.
  unfold in_bounds, gt.
  rewrite andb_true_iff, !lt_true, !val_abs, val_distance_origin.
  change (val (PInt upper_bounds)) with (IZR upper_bounds).
  change (val (PInt lower_bounds)) with (IZR lower_bounds).
  fold (norm2 p).
  rewrite sqrt_lt_abs, abs_lt_sqrt by apply norm2_nonneg.
  tauto.
Qed.

Lemma dist_norm2 (p : point) : dist p = R_sqrt.sqrt (norm2 p).
Proof. apply val_distance_origin. Qed.

Lemma dist_nonneg (p : point) : 0 <= dist p.
Proof. rewrite dist_norm2. apply sqrt_pos. Qed.

Lemma in_bounds_dist (lower_bounds upper_bounds : Z) (p : point) :
  in_bounds lower_bounds upper_bounds (distance_between_two_points origin p)
  = true
  <-> Rabs (IZR lower_bounds) < dist p < Rabs (IZR upper_bounds).
Proof.
  unfold in_bounds, gt, dist.
  rewrite andb_true_iff, !lt_true, !val_abs. simpl val. tauto.
Qed.

(** *** What the two scans yield *)

Lemma x_generator_spec (lower upper lower_bounds upper_bounds : Z)
    (angle : num) (step : Z) (p : point) :
  In p (x_generator lower upper lower_bounds upper_bounds angle step)
  <-> exists x, In x (range lower upper step)
                /\ p = (PInt x, mul angle (PInt x))
                /\ in_bounds lower_bounds upper_bounds
                     (distance_between_two_points origin p) = true.
Proof.
  unfold x_generator. rewrite in_flat_map. split.
  - intros (x & Hx & Hp). exists x.
    destruct (in_bounds _ _ _) eqn:Hb; [| contradiction].
    destruct Hp as [<- | []]. auto.
  - intros (x & Hx & -> & Hb). exists x. split; [assumption |].
    rewrite Hb. now left.
Qed.

Lemma y_generator_spec (lower upper lower_bounds upper_bounds : Z)
    (angle : num) (step : Z) (p : point) :
  In p (y_generator lower upper lower_bounds upper_bounds angle step)
  <-> exists y, In y (range lower upper step)
                /\ p = (if eq angle (PInt 0) then PInt 0
                        else truediv (PInt y) angle, PInt y)
                /\ in_bounds lower_bounds upper_bounds
                     (distance_between_two_points origin p) = true.
Proof.
  unfold y_generator. rewrite in_flat_map. split.
  - intros (y & Hy & Hp). exists y.
    destruct (in_bounds _ _ _) eqn:Hb; [| contradiction].
    destruct Hp as [<- | []]. auto.
  - intros (y & Hy & -> & Hb). exists y. split; [assumption |].
    rewrite Hb. now left.
Qed.

(** An empty annulus yields nothing. *)
Lemma in_bounds_inverted (lower_bounds upper_bounds : Z) (d : num) :
  (Z.abs upper_bounds <= Z.abs lower_bounds)%Z ->
  in_bounds lower_bounds upper_bounds d = false.
Proof.
  intros H. unfold in_bounds, gt.
  apply andb_false_iff.
  destruct (lt d (abs (PInt upper_bounds))) eqn:Hu; [right | now left].
  apply lt_true in Hu. apply lt_false. simpl in *.
  apply IZR_le in H. lra.
Qed.

Lemma x_generator_inverted (lower upper lower_bounds upper_bounds : Z)
    (angle : num) (step : Z) :
  (Z.abs upper_bounds <= Z.abs lower_bounds)%Z ->
  x_generator lower upper lower_bounds upper_bounds angle step = [].
Proof.
  intros H. unfold x_generator.
  induction (range lower upper step) as [| x l IH]; cbn [flat_map];
    [reflexivity |].
  now rewrite in_bounds_inverted, IH.
Qed.

Lemma y_generator_inverted (lower upper lower_bounds upper_bounds : Z)
    (angle : num) (step : Z) :
  (Z.abs upper_bounds <= Z.abs lower_bounds)%Z ->
  y_generator lower upper lower_bounds upper_bounds angle step = [].
Proof.
  intros H. unfold y_generator.
  induction (range lower upper step) as [| y l IH]; cbn [flat_map];
    [reflexivity |].
  now rewrite in_bounds_inverted, IH.
Qed.

(** *** The quadrant branches of [coordinate_generator] *)

Lemma coordinate_generator_q1 (lb ub : Z) (a : num) :
  val a < 90 ->
  coordinate_generator lb ub a
  = Some [ x_generator 1 ub lb ub (Py.tan (radians a)) 1;
           y_generator 1 ub lb ub (Py.tan (radians a)) 1 ].
Proof.
  intros H. unfold coordinate_generator.
  assert (E : lt a (PInt 90) = true) by (apply lt_true; simpl; lra).
  now rewrite E.
Qed.

Lemma coordinate_generator_q2 (lb ub : Z) (a : num) :
  90 <= val a < 180 ->
  coordinate_generator lb ub a
  = Some [ x_generator (-1) (- ub) lb ub (Py.tan (radians a)) (-1);
           y_generator 1 ub lb ub (Py.tan (radians a)) 1 ].
Proof.
  intros H. unfold coordinate_generator.
  assert (E1 : lt a (PInt 90) = false) by (apply lt_false; simpl; lra).
  assert (E2 : lt a (PInt 180) = true) by (apply lt_true; simpl; lra).
  now rewrite E1, E2.
Qed.

Lemma coordinate_generator_q3 (lb ub : Z) (a : num) :
  180 <= val a < 270 ->
  coordinate_generator lb ub a
  = Some [ x_generator (-1) (- ub) lb ub (Py.tan (radians a)) (-1);
           y_generator (-1) (- ub) lb ub (Py.tan (radians a)) (-1) ].
Proof.
  intros H. unfold coordinate_generator.
  assert (E1 : lt a (PInt 90) = false) by (apply lt_false; simpl; lra).
  assert (E2 : lt a (PInt 180) = false) by (apply lt_false; simpl; lra).
  assert (E3 : lt a (PInt 270) = true) by (apply lt_true; simpl; lra).
  now rewrite E1, E2, E3.
Qed.

Lemma coordinate_generator_q4 (lb ub : Z) (a : num) :
  270 <= val a < 360 ->
  coordinate_generator lb ub a
  = Some [ x_generator 1 ub lb ub (Py.tan (radians a)) 1;
           y_generator (-1) (- ub) lb ub (Py.tan (radians a)) (-1) ].
Proof.
  intros H. unfold coordinate_generator.
  assert (E1 : lt a (PInt 90) = false) by (apply lt_false; simpl; lra).
  assert (E2 : lt a (PInt 180) = false) by (apply lt_false; simpl; lra).
  assert (E3 : lt a (PInt 270) = false) by (apply lt_false; simpl; lra).
  assert (E4 : lt a (PInt 360) = true) by (apply lt_true; simpl; lra).
  now rewrite E1, E2, E3, E4.
Qed.

Lemma coordinate_generator_none (lb ub : Z) (a : num) :
  360 <= val a -> coordinate_generator lb ub a = None.
Proof.
  intros H. unfold coordinate_generator.
  assert (E1 : lt a (PInt 90) = false) by (apply lt_false; simpl; lra).
  assert (E2 : lt a (PInt 180) = false) by (apply lt_false; simpl; lra).
  assert (E3 : lt a (PInt 270) = false) by (apply lt_false; simpl; lra).
  assert (E4 : lt a (PInt 360) = false) by (apply lt_false; simpl; lra).
  now rewrite E1, E2, E3, E4.
Qed.

(** Below 360 degrees there are always two scans. *)
Lemma coordinate_generator_some (lb ub : Z) (a : num) :
  val a < 360 ->
  exists xs ys, coordinate_generator lb ub a = Some [xs; ys].
Proof.
  intros H.
  destruct (Rlt_dec (val a) 90);
    [rewrite coordinate_generator_q1 by lra; eauto |].
  destruct (Rlt_dec (val a) 180);
    [rewrite coordinate_generator_q2 by lra; eauto |].
  destruct (Rlt_dec (val a) 270);
    [rewrite coordinate_generator_q3 by lra; eauto |].
  rewrite coordinate_generator_q4 by lra; eauto.
Qed.

Lemma coordinate_generator_inverted (lb ub : Z) (a : num)
    (gens : list (list point)) :
  (Z.abs ub <= Z.abs lb)%Z ->
  coordinate_generator lb ub a = Some gens ->
  pool_of gens = [].
Proof.
  intros H. unfold coordinate_generator.
  repeat match goal with
         | |- context [if ?c then _ else _] => destruct c
         end;
    intros E; inversion E; subst; clear E; unfold pool_of; simpl;
    now rewrite x_generator_inverted, y_generator_inverted.
Qed.

(** *** Sorting *)

Section SortFacts.
Context {A : Type} (key : A -> num * num).

Lemma insert_in (x y : A) (l : list A) :
  In y (insert key x l) <-> y = x \/ In y l.
Proof.
  induction l as [| z l IH]; simpl.
  - intuition auto.
  - destruct (tuple_lt (key z) (key x)); simpl; rewrite ?IH; intuition auto.
Qed.

Lemma sort_in (y : A) (l : list A) : In y (sort key l) <-> In y l.
Proof.
  induction l as [| x l IH]; simpl; [tauto |].
  rewrite insert_in, IH. intuition auto.
Qed.

Lemma insert_length (x : A) (l : list A) :
  length (insert key x l) = S (length l).
Proof.
  induction l as [| z l IH]; simpl; [reflexivity |].
  destruct (tuple_lt (key z) (key x)); simpl; auto.
Qed.

Lemma sort_length (l : list A) : length (sort key l) = length l.
Proof.
  induction l as [| x l IH]; simpl; [reflexivity |].
  now rewrite insert_length, IH.
Qed.

Lemma tuple_lt_false (k1 k2 : num * num) :
  tuple_lt k1 k2 = false <-> key_le k2 k1.
Proof.
  unfold tuple_lt, key_le.
  destruct (eq (fst k1) (fst k2)) eqn:E.
  - apply eq_true in E. rewrite lt_false. split; [intros; right | ]; lra.
  - apply eq_false in E. rewrite lt_false. split; lra.
Qed.

Lemma tuple_lt_true (k1 k2 : num * num) :
  tuple_lt k1 k2 = true -> key_le k1 k2.
Proof.
  unfold tuple_lt, key_le.
  destruct (eq (fst k1) (fst k2)) eqn:E.
  - apply eq_true in E. rewrite lt_true. lra.
  - rewrite lt_true. lra.
Qed.

Lemma key_le_refl (k : num * num) : key_le k k.
Proof. unfold key_le. lra. Qed.

Lemma key_le_trans (k1 k2 k3 : num * num) :
  key_le k1 k2 -> key_le k2 k3 -> key_le k1 k3.
Proof. unfold key_le. lra. Qed.

Lemma insert_head_least (x : A) (l : list A) :
  head_least key l -> head_least key (insert key x l).
Proof.
  destruct l as [| z l]; simpl.
  - intros _ y [<- | []]. apply key_le_refl.
  - intros H. destruct (tuple_lt (key z) (key x)) eqn:E.
    + intros y [<- | Hy].
      * apply key_le_refl.
      * apply insert_in in Hy. destruct Hy as [-> | Hy].
        -- now apply tuple_lt_true.
        -- apply H. now right.
    + apply tuple_lt_false in E.
      intros y [<- | Hy]; [apply key_le_refl |].
      apply key_le_trans with (key z); [assumption |].
      apply H. exact Hy.
Qed.

Lemma sort_head_least (l : list A) : head_least key (sort key l).
Proof.
  induction l as [| x l IH]; simpl; [exact I |].
  now apply insert_head_least.
Qed.

(** The result is in ascending order of the keys, and holds the same
    elements. *)
Lemma insert_sorted (x : A) (l : list A) :
  StronglySorted (fun a b => key_le (key a) (key b)) l ->
  StronglySorted (fun a b => key_le (key a) (key b)) (insert key x l).
Proof.
  induction 1 as [| z l Hl IH Hz]; simpl.
  - constructor; constructor.
  - destruct (tuple_lt (key z) (key x)) eqn:E.
    + constructor; [exact IH |].
      apply Forall_forall. intros y Hy. apply insert_in in Hy.
      destruct Hy as [-> | Hy].
      * now apply tuple_lt_true.
      * rewrite Forall_forall in Hz. now apply Hz.
    + apply tuple_lt_false in E.
      constructor; [now constructor |].
      constructor; [exact E |].
      apply Forall_forall. intros y Hy.
      apply key_le_trans with (key z); [exact E |].
      rewrite Forall_forall in Hz. now apply Hz.
Qed.

Lemma sort_sorted (l : list A) :
  StronglySorted (fun a b => key_le (key a) (key b)) (sort key l).
Proof.
  induction l as [| x l IH]; simpl; [constructor |].
  now apply insert_sorted.
Qed.

Lemma insert_perm (x : A) (l : list A) : Permutation (x :: l) (insert key x l).
Proof.
  induction l as [| z l IH]; simpl; [reflexivity |].
  destruct (tuple_lt (key z) (key x)); [| reflexivity].
  rewrite perm_swap. now constructor.
Qed.

Lemma sort_perm (l : list A) : Permutation l (sort key l).
Proof.
  induction l as [| x l IH]; simpl; [constructor |].
  rewrite <- insert_perm. now constructor.
Qed.

Lemma sort_nonempty (l : list A) :
  l <> [] -> exists h t, sort key l = h :: t.
Proof.
  intros H. destruct (sort key l) as [| h t] eqn:E; [| eauto].
  apply (f_equal (@length A)) in E. rewrite sort_length in E.
  destruct l; [contradiction | discriminate].
Qed.
End SortFacts.

(** *** Candidates and their keys *)

Lemma combine_map_self {A B : Type} (f : A -> B) (l : list A) :
  combine (map f l) l = map (fun a => (f a, a)) l.
Proof. induction l as [| a l IH]; simpl; congruence. Qed.

Lemma sorted_candidates_in (points : list point) (item : num * point) :
  In item (sorted_candidates points)
  <-> exists c, In c points
                /\ item = (distance_to_centerpoint (fst c) (snd c), c).
Proof.
  unfold sorted_candidates.
  rewrite sort_in, combine_map_self, in_map_iff.
  split; intros (c & H1 & H2); exists c; auto.
Qed.

Lemma sorted_candidates_head (points : list point) :
  points <> [] ->
  exists c rest,
    sorted_candidates points
    = (distance_to_centerpoint (fst c) (snd c), c) :: rest
    /\ In c points
    /\ forall c', In c' points ->
                  key_le (candidate_key c) (candidate_key c').
Proof.
  intros Hne.
  pose proof (sort_head_least custom_sort
                (combine (map (fun p => distance_to_centerpoint (fst p) (snd p))
                            points) points)) as Hleast.
  fold (sorted_candidates points) in Hleast.
  destruct (sorted_candidates points) as [| item rest] eqn:E.
  - apply (f_equal (@length _)) in E. unfold sorted_candidates in E.
    rewrite sort_length, combine_map_self, length_map in E.
    destruct points; [contradiction | discriminate].
  - assert (Hin : In item (sorted_candidates points))
      by (rewrite E; now left).
    apply sorted_candidates_in in Hin. destruct Hin as (c & Hc & ->).
    exists c, rest. repeat split; auto.
    intros c' Hc'. apply Hleast.
    rewrite <- E. apply sorted_candidates_in. eauto.
Qed.

(** *** Rounding *)

Lemma round_half_even_near (r : R) :
  Rabs (IZR (round_half_even r) - r) <= 1 / 2.
Proof.
  unfold round_half_even.
  pose proof (Zfloor_bound r) as [H1 H2].
  destruct (Rltb (r - IZR (Zfloor r)) (1 / 2)) eqn:E1.
  - apply Rltb_true in E1. apply Rabs_le. lra.
  - apply Rltb_false in E1.
    destruct (Rltb (1 / 2) (r - IZR (Zfloor r))) eqn:E2.
    + apply Rltb_true in E2. rewrite plus_IZR. apply Rabs_le. lra.
    + apply Rltb_false in E2.
      destruct (Z.even (Zfloor r)); [| rewrite plus_IZR]; apply Rabs_le; lra.
Qed.

Lemma round_near (a : num) : Rabs (IZR (round a) - val a) <= 1 / 2.
Proof.
  destruct a as [z | r]; simpl.
  - rewrite Rminus_diag, Rabs_R0. lra.
  - apply round_half_even_near.
Qed.


Lemma round_half_even_eq (r : R) (n : Z) :
  IZR n - 1 / 2 < r < IZR n + 1 / 2 -> round_half_even r = n.
Proof.
  intros H. unfold round_half_even.
  destruct (Rlt_dec r (IZR n)) as [Hlt | Hge].
  - assert (Hf : Zfloor r = (n - 1)%Z)
      by (apply Zfloor_eq; rewrite minus_IZR; lra).
    rewrite Hf, minus_IZR.
    assert (E1 : Rltb (r - (IZR n - 1)) (1 / 2) = false)
      by (apply Rltb_false; lra).
    assert (E2 : Rltb (1 / 2) (r - (IZR n - 1)) = true)
      by (apply Rltb_true; lra).
    rewrite E1, E2. lia.
  - assert (Hf : Zfloor r = n) by (apply Zfloor_eq; lra).
    rewrite Hf.
    assert (E1 : Rltb (r - IZR n) (1 / 2) = true) by (apply Rltb_true; lra).
    now rewrite E1.
Qed.

(** *** The axis branch *)

Lemma on_axis_true (a : num) :
  on_axis a = true
  <-> val a = 0 \/ val a = 90 \/ val a = 180 \/ val a = 270 \/ val a = 360.
Proof.
  unfold on_axis, axis_angles, existsb.
  rewrite !orb_true_iff, !eq_true. simpl val.
  intuition discriminate.
Qed.

Lemma on_axis_false (a : num) :
  on_axis a = false
  <-> val a <> 0 /\ val a <> 90 /\ val a <> 180 /\ val a <> 270
      /\ val a <> 360.
Proof.
  rewrite <- not_true_iff_false, on_axis_true. tauto.
Qed.

Lemma epsilon_pos : 0 < val epsilon.
Proof.
  unfold epsilon, val. apply Rdiv_lt_0_compat; [lra |]. apply pow_lt. lra.
Qed.

Lemma epsilon_lt_1 : val epsilon < 1.
Proof.
  unfold epsilon, val.
  apply Rmult_lt_reg_r with (10 ^ 10); [apply pow_lt; lra |].
  unfold Rdiv. rewrite Rmult_assoc, Rinv_l, Rmult_1_r, Rmult_1_l.
  - apply Rlt_pow_R1; [lra | lia].
  - apply pow_nonzero. lra.
Qed.

(** The cosine and sine the axis branch computes, at the five angles. *)
Lemma axis_trig (a : num) :
  on_axis a = true ->
  let c := Rtrigo_def.cos (val (radians a)) in
  let s := Rtrigo_def.sin (val (radians a)) in
  (val a = 0 /\ c = 1 /\ s = 0)
  \/ (val a = 90 /\ c = 0 /\ s = 1)
  \/ (val a = 180 /\ c = -1 /\ s = 0)
  \/ (val a = 270 /\ c = 0 /\ s = -1)
  \/ (val a = 360 /\ c = 1 /\ s = 0).
Proof.
  intros H. apply on_axis_true in H. simpl.
  destruct H as [H | [H | [H | [H | H]]]]; rewrite H.
  - left. replace (0 * (PI / 180)) with 0 by lra.
    auto using cos_0, sin_0.
  - right; left. replace (90 * (PI / 180)) with (PI / 2) by lra.
    auto using cos_PI2, sin_PI2.
  - right; right; left. replace (180 * (PI / 180)) with PI by lra.
    auto using cos_PI, sin_PI.
  - right; right; right; left.
    replace (270 * (PI / 180)) with (3 * (PI / 2)) by lra.
    auto using cos_3PI2, sin_3PI2.
  - right; right; right; right.
    replace (360 * (PI / 180)) with (2 * PI) by lra.
    auto using cos_2PI, sin_2PI.
Qed.

Lemma axis_case_point (lower_bounds : Z) (a : num) (result : list point) :
  on_axis a = true ->
  axis_case lower_bounds a result
  = result ++ [axis_point lower_bounds (val a)].
Proof.
  intros H. pose proof epsilon_pos as He. pose proof epsilon_lt_1 as He1.
  destruct (axis_trig a H) as
    [(Ha & Hc & Hs) | [(Ha & Hc & Hs) | [(Ha & Hc & Hs)
    | [(Ha & Hc & Hs) | (Ha & Hc & Hs)]]]];
    unfold axis_case, axis_point, gt, Py.cos, Py.sin;
    rewrite Hc, Hs, Ha;
    repeat match goal with
      | |- context [lt ?x ?y] =>
          let E := fresh "E" in
          first
            [ assert (E : lt x y = true)
                by (apply lt_true; simpl val; unfold Rabs;
                    try destruct (Rcase_abs _); lra)
            | assert (E : lt x y = false)
                by (apply lt_false; simpl val; unfold Rabs;
                    try destruct (Rcase_abs _); lra) ];
          rewrite E; clear E
      | |- context [Reqb ?x ?y] =>
          let E := fresh "E" in
          first
            [ assert (E : Reqb x y = true) by (apply Reqb_true; lra)
            | assert (E : Reqb x y = false) by (apply Reqb_false; lra) ];
          rewrite E; clear E
      end; reflexivity.
Qed.

(** *** The loop *)

Lemma axis_case_app (lb : Z) (a : num) (result : list point) :
  axis_case lb a result = result ++ axis_case lb a [].
Proof.
  unfold axis_case.
  repeat match goal with
         | |- context [if ?c then _ else _] => destruct c
         end; simpl; auto using app_nil_r.
Qed.

Lemma general_case_app (lb ub : Z) (a : num) (result : list point) :
  general_case lb ub a result
  = (l <- general_case lb ub a [] ;; Ok (result ++ l)).
Proof.
  unfold general_case.
  destruct (coordinate_generator lb ub a) as [gens |]; [| reflexivity].
  destruct (sorted_candidates (pool_of gens)); reflexivity.
Qed.

Lemma place_angle_app (lb ub : Z) (a : num) (result : list point) :
  place_angle lb ub a result
  = (l <- place_angle lb ub a [] ;; Ok (result ++ l)).
Proof.
  unfold place_angle. destruct (on_axis a).
  - simpl. now rewrite axis_case_app.
  - apply general_case_app.
Qed.

Section ForEach.
Variable body : Z -> list point -> res (list point).
Hypothesis body_app :
  forall i acc, body i acc = (l <- body i [] ;; Ok (acc ++ l)).

Lemma for_each_ok_inv (indices : list Z) :
  forall acc r,
    for_each body indices acc = Ok r ->
    exists ls, Forall2 (fun i l => body i [] = Ok l) indices ls
               /\ r = acc ++ concat ls.
Proof.
  induction indices as [| i rest IH]; simpl; intros acc r H.
  - inversion H; subst. exists []. split; [constructor |].
    simpl. now rewrite app_nil_r.
  - rewrite body_app in H. destruct (body i []) as [l | e] eqn:E;
      simpl in H; [| discriminate].
    destruct (IH _ _ H) as (ls & Hls & ->).
    exists (l :: ls). split; [now constructor |].
    simpl. now rewrite app_assoc.
Qed.

Lemma for_each_ok_intro (indices : list Z) (ls : list (list point)) :
  Forall2 (fun i l => body i [] = Ok l) indices ls ->
  forall acc, for_each body indices acc = Ok (acc ++ concat ls).
Proof.
  induction 1 as [| i l rest ls Hi Hrest IH]; intros acc; simpl.
  - now rewrite app_nil_r.
  - rewrite body_app, Hi. simpl. rewrite IH. now rewrite app_assoc.
Qed.

(** When an iteration raises, the loop raises what its first failing
    iteration raises. *)
Lemma for_each_raise (indices : list Z) :
  forall acc i e,
    In i indices -> body i [] = Raise e ->
    exists j e', In j indices /\ body j [] = Raise e'
                 /\ for_each body indices acc = Raise e'.
Proof.
  induction indices as [| k rest IH]; simpl; intros acc i e Hin Hi;
    [contradiction |].
  rewrite body_app. destruct (body k []) as [l | e'] eqn:E; simpl.
  - destruct Hin as [-> | Hin]; [congruence |].
    destruct (IH (acc ++ l) i e Hin Hi) as (j & e'' & Hj & Hbj & Hf).
    exists j, e''. auto.
  - exists k, e'. auto.
Qed.
End ForEach.

Lemma loop_body_app (lb ub count i : Z) (acc : list point) :
  loop_body lb ub count i acc
  = (l <- loop_body lb ub count i [] ;; Ok (acc ++ l)).
Proof. apply place_angle_app. Qed.

(** *** The angles of a call *)

Lemma val_angle_of (count i : Z) :
  val (angle_of count i) = 360 / IZR count * IZR (i + 1).
Proof. unfold angle_of. now rewrite val_mul. Qed.

Lemma angle_of_range (count i : Z) :
  (0 <= i < count)%Z -> 0 < val (angle_of count i) <= 360.
Proof.
  intros H. rewrite val_angle_of.
  assert (Hc : 0 < IZR count) by (apply IZR_lt; lia).
  assert (Hi : 0 < IZR (i + 1) <= IZR count)
    by (split; [apply IZR_lt | apply IZR_le]; lia).
  split.
  - apply Rmult_lt_0_compat; [| tauto].
    apply Rdiv_lt_0_compat; lra.
  - unfold Rdiv. rewrite Rmult_assoc.
    assert (Hq : / IZR count * IZR (i + 1) <= 1).
    { apply Rmult_le_reg_l with (IZR count); [assumption |].
      rewrite <- Rmult_assoc, Rinv_r by lra. lra. }
    nra.
Qed.

(** What a successful general branch appends. *)
Lemma general_case_ok_single (lb ub : Z) (a : num) (l : list point) :
  general_case lb ub a [] = Ok l ->
  exists c gens,
    coordinate_generator lb ub a = Some gens
    /\ In c (pool_of gens)
    /\ (forall c', In c' (pool_of gens) ->
                   key_le (candidate_key c) (candidate_key c'))
    /\ l = [round_point c].
Proof.
  unfold general_case.
  destruct (coordinate_generator lb ub a) as [gens |]; [| discriminate].
  destruct (sorted_candidates (pool_of gens)) as [| item rest] eqn:E;
    [discriminate |].
  assert (Hne : pool_of gens <> [])
    by (intros Hnil; rewrite Hnil in E; discriminate).
  destruct (sorted_candidates_head _ Hne) as (c & rest' & E' & Hin & Hle).
  rewrite E in E'. inversion E'; subst.
  intros H. inversion H; subst. exists c, gens. auto.
Qed.

Lemma general_case_nonempty (lb ub : Z) (a : num) (gens : list (list point))
    (result : list point) :
  coordinate_generator lb ub a = Some gens ->
  pool_of gens <> [] ->
  exists c,
    In c (pool_of gens)
    /\ (forall c', In c' (pool_of gens) ->
                   key_le (candidate_key c) (candidate_key c'))
    /\ general_case lb ub a result = Ok (result ++ [round_point c]).
Proof.
  intros Hg Hne. unfold general_case. rewrite Hg.
  destruct (sorted_candidates_head _ Hne) as (c & rest & -> & Hin & Hle).
  exists c. auto.
Qed.

Lemma general_case_empty (lb ub : Z) (a : num) (gens : list (list point))
    (result : list point) :
  coordinate_generator lb ub a = Some gens ->
  pool_of gens = [] ->
  general_case lb ub a result = Raise IndexError.
Proof.
  intros Hg He. unfold general_case. now rewrite Hg, He.
Qed.

(** Inside the loop an angle is at most 360 degrees, so the only exception
    of an iteration is the [IndexError] of an empty pool. *)
Lemma loop_body_raises (lb ub count i : Z) (e : exn) :
  (0 <= i < count)%Z ->
  loop_body lb ub count i [] = Raise e ->
  e = IndexError.
Proof.
  intros Hi. unfold loop_body, place_angle.
  destruct (on_axis (angle_of count i)) eqn:Hax; [discriminate |].
  apply on_axis_false in Hax.
  pose proof (angle_of_range count i Hi) as Hr.
  destruct (coordinate_generator_some lb ub (angle_of count i))
    as (xs & ys & Hg); [lra |].
  unfold general_case. rewrite Hg.
  destruct (sorted_candidates _); intros H; inversion H; reflexivity.
Qed.

(** A successful iteration appends exactly one point. *)
Lemma place_angle_single (lb ub : Z) (a : num) (l : list point) :
  place_angle lb ub a [] = Ok l -> exists p, l = [p].
Proof.
  unfold place_angle. destruct (on_axis a) eqn:Hax.
  - rewrite axis_case_point by assumption. intros H; inversion H; eauto.
  - intros H. apply general_case_ok_single in H.
    destruct H as (c & gens & _ & _ & _ & ->). eauto.
Qed.

Lemma placed_points_ok_inv (count lb ub : Z) (r : list point) :
  placed_points count lb ub = Ok r ->
  Forall2 (fun i p => place_angle lb ub (angle_of count i) [] = Ok [p])
    (range 0 count 1) r.
Proof.
  unfold placed_points. intros H.
  apply (for_each_ok_inv _ (loop_body_app lb ub count)) in H.
  destruct H as (ls & Hls & ->). simpl.
  induction Hls as [| i l rest ls Hi Hrest IH]; simpl; [constructor |].
  unfold loop_body in Hi.
  destruct (place_angle_single _ _ _ _ Hi) as (p & ->).
  simpl. constructor; assumption.
Qed.

Lemma placed_points_ok_intro (count lb ub : Z) (r : list point) :
  Forall2 (fun i p => place_angle lb ub (angle_of count i) [] = Ok [p])
    (range 0 count 1) r ->
  placed_points count lb ub = Ok r.
Proof.
  intros H. unfold placed_points.
  rewrite (for_each_ok_intro _ (loop_body_app lb ub count) _
             (map (fun p => [p]) r)).
  - simpl. f_equal. clear H. induction r as [| p r IH]; simpl; congruence.
  - induction H; simpl; constructor; auto.
Qed.

Lemma placed_points_length (count lb ub : Z) (r : list point) :
  (0 <= count)%Z ->
  placed_points count lb ub = Ok r ->
  Z.of_nat (length r) = count.
Proof.
  intros Hc H. apply placed_points_ok_inv in H.
  apply Forall2_length in H. rewrite <- H.
  now apply range_length_nonneg.
Qed.

Lemma apply_offset_length (offset : point) (r : list point) :
  length (apply_offset offset r) = length r.
Proof. apply length_map. Qed.

Lemma coordinate_placement_ok (count : Z) (offset : point) (lb ub : Z)
    (r : list point) :
  (0 <= count)%Z ->
  placed_points count lb ub = Ok r ->
  coordinate_placement count offset lb ub = Ok (apply_offset offset r).
Proof.
  intros Hc H. unfold coordinate_placement. rewrite H. simpl.
  rewrite apply_offset_length, (placed_points_length _ _ _ _ Hc H).
  now rewrite Z.eqb_refl.
Qed.

Lemma coordinate_placement_ok_inv (count : Z) (offset : point) (lb ub : Z)
    (r' : list point) :
  coordinate_placement count offset lb ub = Ok r' ->
  exists r, placed_points count lb ub = Ok r
            /\ r' = apply_offset offset r
            /\ Z.of_nat (length r') = count.
Proof.
  unfold coordinate_placement.
  destruct (placed_points count lb ub) as [r | e]; simpl; [| discriminate].
  destruct (Z.eqb_spec (Z.of_nat (length (apply_offset offset r))) count);
    [| discriminate].
  intros H; inversion H; subst. eauto.
Qed.

Lemma coordinate_placement_raise (count : Z) (offset : point) (lb ub : Z)
    (e : exn) :
  placed_points count lb ub = Raise e ->
  coordinate_placement count offset lb ub = Raise e.
Proof. intros H. unfold coordinate_placement. now rewrite H. Qed.

(** The loop raises [IndexError] as soon as one of its angles does. *)
Lemma placed_points_index_error (count lb ub i : Z) :
  (0 <= i < count)%Z ->
  place_angle lb ub (angle_of count i) [] = Raise IndexError ->
  placed_points count lb ub = Raise IndexError.
Proof.
  intros Hi H. unfold placed_points.
  destruct (for_each_raise _ (loop_body_app lb ub count)
              (range 0 count 1) [] i IndexError)
    as (j & e' & Hj & Hbj & Hf).
  - apply range_up. lia.
  - exact H.
  - apply range_up in Hj.
    apply loop_body_raises in Hbj; [| lia]. now subst.
Qed.

(** *** The smallest of the four distances *)

Lemma val_min_step (m x : num) :
  val (if lt x m then x else m) = Rmin (val m) (val x).
Proof.
  destruct (lt x m) eqn:E.
  - apply lt_true in E. rewrite Rmin_right; lra.
  - apply lt_false in E. rewrite Rmin_left; lra.
Qed.

Lemma val_min4 (a b c d : num) :
  val (Py.min a [b; c; d])
  = Rmin (Rmin (Rmin (val a) (val b)) (val c)) (val d).
Proof.
  unfold Py.min. simpl. now rewrite !val_min_step.
Qed.

Lemma Zceil_IZR (z : Z) : Zceil (IZR z) = z.
Proof. unfold Zceil. rewrite ZfloorNZ. lia. Qed.

Lemma ceil_of_integer (x : num) (a : Z) : val x = IZR a -> ceil x = a.
Proof.
  destruct x as [z | r]; simpl; intros H.
  - now apply eq_IZR.
  - subst. apply Zceil_IZR.
Qed.

(* ================================================================== *)
(** ** Geometry primitives *)

Lemma corner_distance (x y cx cy : num) :
  val (Py.sqrt (add (sq (sub x cx)) (sq (sub y cy))))
  = val (distance_between_two_points (x, y) (cx, cy)).
Proof.
  rewrite val_distance. simpl.
  rewrite val_add, !val_sq, !val_sub. f_equal. ring.
Qed.

Lemma Zfloor_half (n : Z) : Zfloor (IZR n + 1 / 2) = n.
Proof. apply Zfloor_eq. lra. Qed.

Lemma Zceil_half (n : Z) : Zceil (IZR n + 1 / 2) = (n + 1)%Z.
Proof.
  unfold Zceil.
  assert (H : Zfloor (- (IZR n + 1 / 2)) = (- n - 1)%Z).
  { apply Zfloor_eq. rewrite minus_IZR, opp_IZR. lra. }
  rewrite H. lia.
Qed.

(** C6.  [distance_to_centerpoint x y] is the least of the distances from
    [(x, y)] to its four neighbouring lattice points: it is one of them and
    no neighbour is nearer.  It is 0 when both coordinates are integers
    (for two ints the function returns the int 0 at once).  At (2.5, 2.5) it
    is [sqrt 0.5], at the ints (2, 3) it is 0. *)
Theorem distance_to_centerpoint_nearest_lattice (x y : num) :
  let d := val (distance_to_centerpoint x y) in
  (exists q, In q (lattice_neighbours x y)
             /\ d = val (distance_between_two_points (x, y) q))
  /\ (forall q, In q (lattice_neighbours x y) ->
                d <= val (distance_between_two_points (x, y) q))
  /\ (forall a b : Z, val x = IZR a -> val y = IZR b -> d = 0)
  /\ (is_int x = true -> is_int y = true ->
      distance_to_centerpoint x y = PInt 0)
  /\ val (distance_to_centerpoint (PFloat (5 / 2)) (PFloat (5 / 2)))
     = R_sqrt.sqrt (1 / 2)
  /\ distance_to_centerpoint (PInt 2) (PInt 3) = PInt 0.
Proof.
  intros d.
  assert (Hmin :
    (exists q, In q (lattice_neighbours x y)
               /\ d = val (distance_between_two_points (x, y) q))
    /\ (forall q, In q (lattice_neighbours x y) ->
                  d <= val (distance_between_two_points (x, y) q))).
  { subst d. unfold distance_to_centerpoint.
    destruct (is_int x && is_int y) eqn:Hint.
    - apply andb_true_iff in Hint. destruct Hint as [Hx Hy].
      destruct x as [a |]; [| discriminate].
      destruct y as [b |]; [| discriminate].
      assert (H0 : forall q, In q (lattice_neighbours (PInt a) (PInt b)) ->
                  val (distance_between_two_points (PInt a, PInt b) q) = 0).
      { intros q Hq. simpl in Hq.
        assert (q = (PInt a, PInt b)) as -> by intuition congruence.
        rewrite val_distance. cbn [fst snd val].
        replace ((IZR a - IZR a) ^ 2 + (IZR b - IZR b) ^ 2) with 0 by ring.
        apply sqrt_0. }
      split.
      + exists (PInt a, PInt b). split; [now left |].
        rewrite H0; [reflexivity | now left].
      + intros q Hq. rewrite (H0 q Hq). simpl. lra.
    - rewrite val_min4, !corner_distance.
      set (tr := val (distance_between_two_points (x, y)
                        (PInt (ceil x), PInt (ceil y)))).
      set (tl := val (distance_between_two_points (x, y)
                        (PInt (floor x), PInt (ceil y)))).
      set (bl := val (distance_between_two_points (x, y)
                        (PInt (floor x), PInt (floor y)))).
      set (br := val (distance_between_two_points (x, y)
                        (PInt (ceil x), PInt (floor y)))).
      split.
      + assert (Hc : forall a b, Rmin a b = a \/ Rmin a b = b).
        { intros a b. unfold Rmin. destruct (Rle_dec a b); auto. }
        unfold lattice_neighbours. fold tr tl bl br.
        destruct (Hc (Rmin (Rmin tr bl) tl) br) as [-> | ->];
          [ destruct (Hc (Rmin tr bl) tl) as [-> | ->];
            [ destruct (Hc tr bl) as [-> | ->] |] |].
        * exists (PInt (ceil x), PInt (ceil y)). simpl; auto.
        * exists (PInt (floor x), PInt (floor y)). simpl; auto.
        * exists (PInt (floor x), PInt (ceil y)). simpl; auto.
        * exists (PInt (ceil x), PInt (floor y)). simpl; auto 6.
      + intros q Hq. simpl in Hq.
        pose proof (Rmin_l (Rmin (Rmin tr bl) tl) br).
        pose proof (Rmin_r (Rmin (Rmin tr bl) tl) br).
        pose proof (Rmin_l (Rmin tr bl) tl).
        pose proof (Rmin_r (Rmin tr bl) tl).
        pose proof (Rmin_l tr bl).
        pose proof (Rmin_r tr bl).
        destruct Hq as [<- | [<- | [<- | [<- | []]]]];
          fold tr tl bl br; lra. }
  destruct Hmin as [Hex Hle].
  split; [exact Hex |]. split; [exact Hle |].
  split; [| split; [| split]].
  - intros a b Ha Hb.
    assert (Hge : 0 <= d).
    { destruct Hex as (q & _ & ->). destruct q as [qx qy].
      rewrite val_distance. apply sqrt_pos. }
    assert (Hup : d <= 0).
    { specialize (Hle (PInt (ceil x), PInt (ceil y)) (or_introl eq_refl)).
      rewrite val_distance in Hle. cbn [fst snd val] in Hle.
      rewrite (ceil_of_integer x a Ha), (ceil_of_integer y b Hb) in Hle.
      rewrite Ha, Hb in Hle.
      replace ((IZR a - IZR a) ^ 2 + (IZR b - IZR b) ^ 2) with 0 in Hle
        by ring.
      now rewrite sqrt_0 in Hle. }
    lra.
  - intros Hx Hy. unfold distance_to_centerpoint. now rewrite Hx, Hy.
  - unfold distance_to_centerpoint. simpl is_int. cbv iota. simpl andb.
    cbv iota.
    rewrite val_min4. unfold ceil, floor.
    replace (5 / 2) with (IZR 2 + 1 / 2) by lra.
    rewrite Zfloor_half, Zceil_half.
    simpl Z.add.
    unfold Py.sqrt. rewrite ?val_add, ?val_sq, ?val_sub. cbn [val].
    replace ((2 + 1 / 2 - 3) ^ 2 + (2 + 1 / 2 - 3) ^ 2) with (1 / 2)
      by (simpl; lra).
    replace ((2 + 1 / 2 - 2) ^ 2 + (2 + 1 / 2 - 2) ^ 2) with (1 / 2)
      by (simpl; lra).
    replace ((2 + 1 / 2 - 2) ^ 2 + (2 + 1 / 2 - 3) ^ 2) with (1 / 2)
      by (simpl; lra).
    replace ((2 + 1 / 2 - 3) ^ 2 + (2 + 1 / 2 - 2) ^ 2) with (1 / 2)
      by (simpl; lra).
    now rewrite !(Rmin_left (R_sqrt.sqrt (1 / 2)) (R_sqrt.sqrt (1 / 2)))
      by lra.
  - reflexivity.
Qed.

(* ================================================================== *)
(** ** Candidate generator *)




Ltac not_on_axis := apply on_axis_false; cbn [val]; repeat split; lra.


(** C10.  At 360 degrees or more no branch of [coordinate_generator]
    returns: the result is [None], and the caller, which iterates the
    result, raises [TypeError] instead of seeing an empty pool. *)
Theorem coordinate_generator_falls_through (lower_bounds upper_bounds : Z)
    (angle_deg : num) :
  360 <= val angle_deg ->
  coordinate_generator lower_bounds upper_bounds angle_deg = None
  /\ (forall result,
        general_case lower_bounds upper_bounds angle_deg result
        = Raise TypeError)
  /\ (on_axis angle_deg = false ->
      forall result,
        place_angle lower_bounds upper_bounds angle_deg result
        = Raise TypeError).
Proof.
  intros H.
  pose proof (coordinate_generator_none lower_bounds upper_bounds _ H) as Hn.
  split; [exact Hn |].
  assert (Hg : forall result,
             general_case lower_bounds upper_bounds angle_deg result
             = Raise TypeError).
  { intros result. unfold general_case. now rewrite Hn. }
  split; [exact Hg |].
  intros Hax result. unfold place_angle. rewrite Hax. apply Hg.
Qed.

Lemma coordinate_generator_falls_through_witness :
  coordinate_generator 10 20 (PInt 400) = None
  /\ place_angle 10 20 (PInt 400) [] = Raise TypeError.
Proof.
  destruct (coordinate_generator_falls_through 10 20 (PInt 400))
    as (Hn & _ & Hp).
  - cbn [val]. lra.
  - split; [exact Hn |]. apply Hp. not_on_axis.
Defined.

(* ================================================================== *)
(** ** Placement engine *)

Lemma axis_point_east (lb : Z) (a : R) :
  a = 0 \/ a = 360 -> axis_point lb a = (PInt lb, PInt 0).
Proof.
  intros H. unfold axis_point.
  assert (E1 : Reqb a 90 = false) by (apply Reqb_false; lra).
  assert (E2 : Reqb a 180 = false) by (apply Reqb_false; lra).
  assert (E3 : Reqb a 270 = false) by (apply Reqb_false; lra).
  now rewrite E1, E2, E3.
Qed.

Lemma axis_point_north (lb : Z) (a : R) :
  a = 90 -> axis_point lb a = (PInt 0, PInt lb).
Proof.
  intros H. unfold axis_point.
  assert (E1 : Reqb a 90 = true) by (apply Reqb_true; lra).
  now rewrite E1.
Qed.

Lemma axis_point_west (lb : Z) (a : R) :
  a = 180 -> axis_point lb a = (PInt (- lb), PInt 0).
Proof.
  intros H. unfold axis_point.
  assert (E1 : Reqb a 90 = false) by (apply Reqb_false; lra).
  assert (E2 : Reqb a 180 = true) by (apply Reqb_true; lra).
  now rewrite E1, E2.
Qed.

Lemma axis_point_south (lb : Z) (a : R) :
  a = 270 -> axis_point lb a = (PInt 0, PInt (- lb)).
Proof.
  intros H. unfold axis_point.
  assert (E1 : Reqb a 90 = false) by (apply Reqb_false; lra).
  assert (E2 : Reqb a 180 = false) by (apply Reqb_false; lra).
  assert (E3 : Reqb a 270 = true) by (apply Reqb_true; lra).
  now rewrite E1, E2, E3.
Qed.

Lemma norm2_axis_point (lb : Z) (a : R) :
  norm2 (axis_point lb a) = IZR lb ^ 2.
Proof.
  unfold axis_point, norm2.
  destruct (Reqb a 90); [| destruct (Reqb a 180); [| destruct (Reqb a 270)]];
    cbn [fst snd val]; rewrite ?opp_IZR; ring.
Qed.

Lemma place_angle_axis (lb ub : Z) (a : num) (result : list point) :
  on_axis a = true ->
  place_angle lb ub a result = Ok (result ++ [axis_point lb (val a)]).
Proof.
  intros H. unfold place_angle. rewrite H.
  now rewrite axis_case_point.
Qed.

(** C4.  At an angle of exactly 0, 90, 180, 270 or 360 degrees the loop
    body takes the axis branch only, whatever the upper bound, and appends
    one point at the radius [lower_bounds]: on the x axis with the sign of
    the cosine when the sine is within [epsilon] of 0, otherwise on the y
    axis with the sign of the sine (the cosine is then within [epsilon] of
    0).  By angle: east at 0 and 360, north at 90, west at 180, south at
    270. *)
Theorem axis_angle_placed_at_minimum (lower_bounds upper_bounds : Z)
    (angle_deg : num) (result : list point) :
  on_axis angle_deg = true ->
  let c := Rtrigo_def.cos (val (radians angle_deg)) in
  let s := Rtrigo_def.sin (val (radians angle_deg)) in
  exists p,
    place_angle lower_bounds upper_bounds angle_deg result
    = Ok (axis_case lower_bounds angle_deg result)
    /\ axis_case lower_bounds angle_deg result = result ++ [p]
    /\ ((Rabs s < val epsilon
         /\ ((0 < c /\ p = (PInt lower_bounds, PInt 0))
             \/ (c <= 0 /\ p = (PInt (- lower_bounds), PInt 0))))
        \/ (val epsilon <= Rabs s /\ Rabs c < val epsilon
            /\ ((0 < s /\ p = (PInt 0, PInt lower_bounds))
                \/ (s <= 0 /\ p = (PInt 0, PInt (- lower_bounds))))))
    /\ dist p = Rabs (IZR lower_bounds)
    /\ (val angle_deg = 0 \/ val angle_deg = 360 ->
        p = (PInt lower_bounds, PInt 0))
    /\ (val angle_deg = 90 -> p = (PInt 0, PInt lower_bounds))
    /\ (val angle_deg = 180 -> p = (PInt (- lower_bounds), PInt 0))
    /\ (val angle_deg = 270 -> p = (PInt 0, PInt (- lower_bounds))).
Proof.
  intros Hax c s.
  pose proof epsilon_pos as He. pose proof epsilon_lt_1 as He1.
  exists (axis_point lower_bounds (val angle_deg)).
  split; [unfold place_angle; now rewrite Hax |].
  split; [now apply axis_case_point |].
  split; [| split].
  - destruct (axis_trig angle_deg Hax) as
      [(Ha & Hc & Hs) | [(Ha & Hc & Hs) | [(Ha & Hc & Hs)
      | [(Ha & Hc & Hs) | (Ha & Hc & Hs)]]]];
      fold c in Hc; fold s in Hs; rewrite Hc, Hs.
    + left. rewrite Rabs_R0. split; [assumption |]. left.
      split; [lra |]. apply axis_point_east. auto.
    + right. rewrite Rabs_R0, Rabs_R1. split; [lra |].
      split; [assumption |]. left.
      split; [lra |]. now apply axis_point_north.
    + left. rewrite Rabs_R0. split; [assumption |]. right.
      split; [lra |]. now apply axis_point_west.
    + right. rewrite Rabs_R0.
      replace (Rabs (-1)) with 1
        by (symmetry; rewrite <- Rabs_Ropp; replace (- -1) with 1 by lra;
            apply Rabs_R1).
      split; [lra |]. split; [assumption |]. right.
      split; [lra |]. now apply axis_point_south.
    + left. rewrite Rabs_R0. split; [assumption |]. left.
      split; [lra |]. apply axis_point_east. auto.
  - rewrite dist_norm2, norm2_axis_point.
    rewrite <- Rsqr_pow2. apply sqrt_Rsqr_abs.
  - repeat split; intros H;
      auto using axis_point_east, axis_point_north, axis_point_west,
        axis_point_south.
Qed.

Lemma axis_angle_placed_at_minimum_witness :
  place_angle 10 20 (PInt 90) [] = Ok [(PInt 0, PInt 10)].
Proof.
  destruct (axis_angle_placed_at_minimum 10 20 (PInt 90) [])
    as (p & Hp & Hc & _ & _ & _ & Hn & _).
  - apply on_axis_true. cbn [val]. auto.
  - rewrite Hp, Hc, (Hn eq_refl). reflexivity.
Defined.

Lemma tan_45 : Rtrigo1.tan (val (radians (PInt 45))) = 1.
Proof.
  cbn [radians val]. replace (45 * (PI / 180)) with (PI / 4) by lra.
  apply tan_PI4.
Qed.

(** C9.  When an angle of the call is not on an axis and its pool is
    empty, the loop body raises [IndexError] at [arr[0]], and the call ends
    with that [IndexError]: the length check and its [Warning] are not
    reached. *)
Theorem empty_pool_raises_index_error (count : Z) (offset : point)
    (minimum maximum i : Z) (gens : list (list point)) :
  (0 <= i < count)%Z ->
  on_axis (angle_of count i) = false ->
  coordinate_generator minimum maximum (angle_of count i) = Some gens ->
  pool_of gens = [] ->
  (forall result,
      place_angle minimum maximum (angle_of count i) result
      = Raise IndexError)
  /\ coordinate_placement count offset minimum maximum = Raise IndexError
  /\ coordinate_placement count offset minimum maximum <> Raise Warning.
Proof.
  intros Hi Hax Hg Hempty.
  assert (Hp : forall result,
             place_angle minimum maximum (angle_of count i) result
             = Raise IndexError).
  { intros result. unfold place_angle. rewrite Hax.
    now apply general_case_empty with gens. }
  assert (Hc : coordinate_placement count offset minimum maximum
               = Raise IndexError).
  { apply coordinate_placement_raise.
    apply placed_points_index_error with i; auto. }
  split; [exact Hp |]. split; [exact Hc |].
  rewrite Hc. discriminate.
Qed.

Lemma val_angle_3_0 : val (angle_of 3 0) = 120.
Proof. rewrite val_angle_of. simpl Z.add. lra. Qed.

Lemma empty_pool_raises_index_error_witness :
  coordinate_placement 3 origin 20 10 = Raise IndexError.
Proof.
  destruct (empty_pool_raises_index_error 3 origin 20 10 0
              [ x_generator (-1) (- 10) 20 10
                  (Py.tan (radians (angle_of 3 0))) (-1);
                y_generator 1 10 20 10
                  (Py.tan (radians (angle_of 3 0))) 1 ])
    as (_ & Hc & _).
  - lia.
  - apply on_axis_false. rewrite val_angle_3_0. repeat split; lra.
  - apply coordinate_generator_q2. rewrite val_angle_3_0. lra.
  - unfold pool_of. simpl concat.
    rewrite x_generator_inverted, y_generator_inverted by lia. reflexivity.
  - exact Hc.
Defined.

(** C5.  When a call with an offset and the same call with the offset
    (0, 0) both succeed, the results have the same length and each point of
    the first is the point of the second at the same index plus the
    offset, coordinate by coordinate. *)
Theorem offset_translates (count : Z) (offset : point) (minimum maximum : Z)
    (r1 r0 : list point) :
  coordinate_placement count offset minimum maximum = Ok r1 ->
  coordinate_placement count origin minimum maximum = Ok r0 ->
  length r1 = length r0
  /\ forall (i : nat) (p0 : point),
       nth_error r0 i = Some p0 ->
       nth_error r1 i
       = Some (add (fst p0) (fst offset), add (snd p0) (snd offset)).
Proof.
  intros H1 H0.
  apply coordinate_placement_ok_inv in H1, H0.
  destruct H1 as (r & Hr & -> & _). destruct H0 as (r' & Hr' & -> & _).
  rewrite Hr in Hr'. inversion Hr'; subst r'. clear Hr'.
  split; [now rewrite !apply_offset_length |].
  intros i p0. unfold apply_offset. rewrite !nth_error_map.
  destruct (nth_error _ i) as [[x y] |]; simpl; [| discriminate].
  intros H; inversion H; subst. f_equal. f_equal.
  - destruct x, offset as [[ox | ox] oy]; simpl; f_equal;
      rewrite ?Z.add_0_r; try lra; reflexivity.
  - destruct y, offset as [ox [oy | oy]]; simpl; f_equal;
      rewrite ?Z.add_0_r; try lra; reflexivity.
Qed.

Lemma val_angle_1_0 : val (angle_of 1 0) = 360.
Proof. rewrite val_angle_of. simpl Z.add. lra. Qed.

Lemma placed_points_1 (lb ub : Z) :
  placed_points 1 lb ub = Ok [(PInt lb, PInt 0)].
Proof.
  apply placed_points_ok_intro.
  change (range 0 1 1) with [0%Z].
  constructor; [| constructor].
  rewrite place_angle_axis
    by (apply on_axis_true; rewrite val_angle_1_0; auto 6).
  rewrite axis_point_east by (rewrite val_angle_1_0; auto).
  reflexivity.
Qed.

Lemma offset_translates_witness :
  nth_error [(PInt 15, PInt 5)] 0
  = Some (add (PInt 10) (PInt 5), add (PInt 0) (PInt 5)).
Proof.
  destruct (offset_translates 1 (PInt 5, PInt 5) 10 20
              [(PInt 15, PInt 5)] [(PInt 10, PInt 0)]) as [_ H].
  - rewrite (coordinate_placement_ok 1 _ 10 20 [(PInt 10, PInt 0)]);
      [reflexivity | lia | apply placed_points_1].
  - rewrite (coordinate_placement_ok 1 _ 10 20 [(PInt 10, PInt 0)]);
      [reflexivity | lia | apply placed_points_1].
  - exact (H 0%nat (PInt 10, PInt 0) eq_refl).
Defined.

(** *** Outcomes of a call *)

Lemma for_each_raise_inv (body : Z -> list point -> res (list point))
    (indices : list Z) :
  (forall i acc, body i acc = (l <- body i [] ;; Ok (acc ++ l))) ->
  forall acc e,
    for_each body indices acc = Raise e ->
    exists i, In i indices /\ body i [] = Raise e.
Proof.
  intros Happ.
  induction indices as [| k rest IH]; simpl; intros acc e H;
    [discriminate |].
  rewrite Happ in H. destruct (body k []) as [l | e'] eqn:E; simpl in H.
  - destruct (IH _ _ H) as (i & Hi & Hb). eauto.
  - inversion H; subst. eauto.
Qed.

Lemma placed_points_raise_inv (count lb ub : Z) (e : exn) :
  placed_points count lb ub = Raise e -> e = IndexError.
Proof.
  unfold placed_points. intros H.
  apply (for_each_raise_inv _ _ (loop_body_app lb ub count)) in H.
  destruct H as (i & Hi & Hb). apply range_up in Hi.
  apply loop_body_raises in Hb; [assumption | lia].
Qed.

(** With inverted bounds an angle that is not on an axis has no
    candidate. *)
Lemma place_angle_inverted (lb ub : Z) (a : num) (result : list point) :
  (Z.abs ub <= Z.abs lb)%Z ->
  on_axis a = false -> val a < 360 ->
  place_angle lb ub a result = Raise IndexError.
Proof.
  intros Hinv Hax Ha. unfold place_angle. rewrite Hax.
  destruct (coordinate_generator_some lb ub a Ha) as (xs & ys & Hg).
  apply general_case_empty with [xs; ys]; [assumption |].
  now apply coordinate_generator_inverted with lb ub a.
Qed.

Ltac angle_value := rewrite val_angle_of; simpl Z.add; lra.

Ltac axis_iteration v :=
  match goal with
  | |- place_angle _ _ (angle_of ?c ?i) [] = Ok [_] =>
      let Hv := fresh "Hv" in
      assert (Hv : val (angle_of c i) = v) by angle_value;
      rewrite place_angle_axis by (apply on_axis_true; rewrite Hv; auto 6);
      first [ rewrite axis_point_east by (rewrite Hv; auto)
            | rewrite axis_point_north by (rewrite Hv; auto)
            | rewrite axis_point_west by (rewrite Hv; auto)
            | rewrite axis_point_south by (rewrite Hv; auto) ];
      reflexivity
  end.

Lemma placed_points_2 (lb ub : Z) :
  placed_points 2 lb ub = Ok [(PInt (- lb), PInt 0); (PInt lb, PInt 0)].
Proof.
  apply placed_points_ok_intro.
  change (range 0 2 1) with [0%Z; 1%Z].
  repeat constructor.
  - axis_iteration 180.
  - axis_iteration 360.
Qed.

Lemma placed_points_4 (lb ub : Z) :
  placed_points 4 lb ub
  = Ok [ (PInt 0, PInt lb); (PInt (- lb), PInt 0);
         (PInt 0, PInt (- lb)); (PInt lb, PInt 0) ].
Proof.
  apply placed_points_ok_intro.
  change (range 0 4 1) with [0%Z; 1%Z; 2%Z; 3%Z].
  repeat constructor.
  - axis_iteration 90.
  - axis_iteration 180.
  - axis_iteration 270.
  - axis_iteration 360.
Qed.

(** The first angle of a call with five points or more is in the first
    quadrant. *)
Lemma first_angle_small (count : Z) :
  (5 <= count)%Z -> 0 < val (angle_of count 0) < 90.
Proof.
  intros H. rewrite val_angle_of. simpl Z.add.
  assert (Hc : 5 <= IZR count) by (apply IZR_le; assumption).
  assert (Hi : 0 < / IZR count) by (apply Rinv_0_lt_compat; lra).
  assert (Hj : / IZR count < / 4) by (apply Rinv_lt_contravar; lra).
  unfold Rdiv. lra.
Qed.

(** With inverted bounds and a count other than 1, 2 and 4 the first
    iteration already raises. *)
Lemma inverted_bounds_raise (count : Z) (offset : point) (lb ub : Z) :
  (Z.abs ub <= Z.abs lb)%Z ->
  (1 <= count)%Z -> count <> 1%Z -> count <> 2%Z -> count <> 4%Z ->
  coordinate_placement count offset lb ub = Raise IndexError.
Proof.
  intros Hinv H1 N1 N2 N4.
  apply coordinate_placement_raise.
  apply placed_points_index_error with 0%Z; [lia |].
  assert (Hv : 0 < val (angle_of count 0) < 90
               \/ val (angle_of count 0) = 120).
  { destruct (Z.eq_dec count 3) as [-> | N3].
    - right. apply val_angle_3_0.
    - left. apply first_angle_small. lia. }
  apply place_angle_inverted; [assumption | |].
  - apply on_axis_false. repeat split; lra.
  - lra.
Qed.

(** C1.  [coordinate_placement(3, offset, 20, 10)] ends with the
    [IndexError] of [arr[0]], raised in the first iteration (angle 120
    degrees, empty candidate pool); it neither returns a list of points
    nor reaches the [Warning] of the length check. *)
Theorem placement_may_end_with_index_error (offset : point) :
  on_axis (angle_of 3 0) = false
  /\ place_angle 20 10 (angle_of 3 0) [] = Raise IndexError
  /\ coordinate_placement 3 offset 20 10 = Raise IndexError
  /\ coordinate_placement 3 offset 20 10 <> Raise Warning
  /\ (forall r, coordinate_placement 3 offset 20 10 <> Ok r).
Proof.
  assert (Hax : on_axis (angle_of 3 0) = false).
  { apply on_axis_false. rewrite val_angle_3_0. repeat split; lra. }
  assert (Hp : place_angle 20 10 (angle_of 3 0) [] = Raise IndexError).
  { apply place_angle_inverted; [lia | exact Hax |].
    rewrite val_angle_3_0. lra. }
  assert (H : coordinate_placement 3 offset 20 10 = Raise IndexError).
  { apply coordinate_placement_raise.
    apply placed_points_index_error with 0%Z; [lia | exact Hp]. }
  rewrite H. repeat split; try assumption; try discriminate.
Qed.

(** C2, counterexample.  With one point the only angle is 360 degrees, an
    axis angle: the call with the inverted bounds 20 and 10 returns
    [(20, 0)]. *)
Lemma inverted_bounds_return_normally :
  coordinate_placement 1 origin 20 10 = Ok [(PInt 20, PInt 0)].
Proof.
  rewrite (coordinate_placement_ok 1 origin 20 10 [(PInt 20, PInt 0)]);
    [reflexivity | lia | apply placed_points_1].
Qed.

(** C2, amended.  With [minimum = 20] and [maximum = 10] a call with
    [count >= 1] does not return fewer than [count] points.  When every
    angle is on an axis, that is for 1, 2 or 4 points, it returns the axis
    points at radius 20, moved by the offset; for any other count it does
    not return. *)
Theorem inverted_bounds_outcome (count : Z) (offset : point) :
  (1 <= count)%Z ->
  (forall r, coordinate_placement count offset 20 10 = Ok r ->
             Z.of_nat (length r) = count)
  /\ (count = 1%Z ->
      coordinate_placement count offset 20 10
      = Ok (apply_offset offset [(PInt 20, PInt 0)]))
  /\ (count = 2%Z ->
      coordinate_placement count offset 20 10
      = Ok (apply_offset offset [(PInt (-20), PInt 0); (PInt 20, PInt 0)]))
  /\ (count = 4%Z ->
      coordinate_placement count offset 20 10
      = Ok (apply_offset offset
              [ (PInt 0, PInt 20); (PInt (-20), PInt 0);
                (PInt 0, PInt (-20)); (PInt 20, PInt 0) ]))
  /\ (count <> 1%Z -> count <> 2%Z -> count <> 4%Z ->
      exists e, coordinate_placement count offset 20 10 = Raise e).
Proof.
  intros H1. repeat split.
  - intros r Hr. apply coordinate_placement_ok_inv in Hr.
    destruct Hr as (_ & _ & _ & Hlen). exact Hlen.
  - intros ->. apply coordinate_placement_ok; [lia |]. apply placed_points_1.
  - intros ->. apply coordinate_placement_ok; [lia |].
    apply (placed_points_2 20 10).
  - intros ->. apply coordinate_placement_ok; [lia |].
    apply (placed_points_4 20 10).
  - intros N1 N2 N4. exists IndexError.
    apply inverted_bounds_raise; auto. lia.
Qed.

Lemma inverted_bounds_outcome_witness :
  coordinate_placement 4 (PInt 5, PInt 5) 20 10
  = Ok [ (PInt 5, PInt 25); (PInt (-15), PInt 5);
         (PInt 5, PInt (-15)); (PInt 25, PInt 5) ].
Proof.
  destruct (inverted_bounds_outcome 4 (PInt 5, PInt 5))
    as (_ & _ & _ & H4 & _).
  - lia.
  - rewrite (H4 eq_refl). reflexivity.
Defined.

(** *** A call with five points between the radii 1 and 2 *)

Lemma atan_half_gt : PI / 8 < atan (/ 2).
Proof.
  pose proof Machin_2_3 as HM.
  assert (H : atan (/ 3) < atan (/ 2)) by (apply atan_increasing; lra).
  lra.
Qed.

Lemma tan_2PI5_gt_2 : 2 < Rtrigo1.tan (2 * (PI / 5)).
Proof.
  pose proof PI_RGT_0 as Hpi.
  pose proof atan_half_gt as Hh.
  pose proof (atan_inv 2 ltac:(lra)) as Hinv.
  pose proof (atan_bound 2) as [Hb1 Hb2].
  rewrite <- (tan_atan 2) at 1.
  apply tan_increasing; lra.
Qed.

Lemma tan_PI5_bounds : 0 < Rtrigo1.tan (PI / 5) < 1.
Proof.
  pose proof PI_RGT_0 as Hpi. split.
  - apply tan_gt_0; lra.
  - rewrite <- tan_PI4. apply tan_increasing; lra.
Qed.

Lemma cos_PI5_neq_0 : Rtrigo_def.cos (PI / 5) <> 0.
Proof.
  pose proof PI_RGT_0 as Hpi.
  assert (0 < Rtrigo_def.cos (PI / 5)) by (apply cos_gt_0; lra). lra.
Qed.

Lemma cos_2PI5_neq_0 : Rtrigo_def.cos (2 * (PI / 5)) <> 0.
Proof.
  pose proof PI_RGT_0 as Hpi.
  assert (0 < Rtrigo_def.cos (2 * (PI / 5))) by (apply cos_gt_0; lra). lra.
Qed.

Lemma slope_72 (a : num) : val a = 72 -> 2 < slope_of a.
Proof.
  intros H. unfold slope_of. cbn [Py.tan radians val]. rewrite H.
  replace (72 * (PI / 180)) with (2 * (PI / 5)) by lra.
  apply tan_2PI5_gt_2.
Qed.

Lemma slope_144 (a : num) : val a = 144 -> -1 < slope_of a < 0.
Proof.
  intros H. unfold slope_of. cbn [Py.tan radians val]. rewrite H.
  replace (144 * (PI / 180)) with (PI - PI / 5) by lra.
  rewrite tan_pi_minus by apply cos_PI5_neq_0.
  pose proof tan_PI5_bounds. lra.
Qed.

Lemma slope_216 (a : num) : val a = 216 -> 0 < slope_of a < 1.
Proof.
  intros H. unfold slope_of. cbn [Py.tan radians val]. rewrite H.
  replace (216 * (PI / 180)) with (PI + PI / 5) by lra.
  rewrite tan_pi_plus by apply cos_PI5_neq_0.
  apply tan_PI5_bounds.
Qed.

Lemma slope_288 (a : num) : val a = 288 -> slope_of a < -2.
Proof.
  intros H. unfold slope_of. cbn [Py.tan radians val]. rewrite H.
  replace (288 * (PI / 180)) with (PI + (PI - 2 * (PI / 5))) by lra.
  rewrite tan_pi_plus.
  - rewrite tan_pi_minus by apply cos_2PI5_neq_0.
    pose proof tan_2PI5_gt_2. lra.
  - rewrite cos_pi_minus. pose proof cos_2PI5_neq_0. lra.
Qed.

Lemma x_candidate (lo hi lb ub : Z) (slope : num) (step x : Z) :
  In x (range lo hi step) ->
  IZR lb ^ 2 < IZR x ^ 2 + (val slope * IZR x) ^ 2 < IZR ub ^ 2 ->
  In (PInt x, mul slope (PInt x)) (x_generator lo hi lb ub slope step).
Proof.
  intros Hx Hb. apply x_generator_spec. exists x.
  split; [assumption |]. split; [reflexivity |].
  apply in_bounds_iff. unfold norm2. cbn [fst snd].
  rewrite val_mul. exact Hb.
Qed.

Lemma y_candidate (lo hi lb ub : Z) (slope : num) (step y : Z) :
  val slope <> 0 ->
  In y (range lo hi step) ->
  IZR lb ^ 2 < (IZR y / val slope) ^ 2 + IZR y ^ 2 < IZR ub ^ 2 ->
  In (truediv (PInt y) slope, PInt y) (y_generator lo hi lb ub slope step).
Proof.
  intros Hs Hy Hb. apply y_generator_spec. exists y.
  assert (E : eq slope (PInt 0) = false) by (apply eq_false; exact Hs).
  rewrite E.
  split; [assumption |]. split; [reflexivity |].
  apply in_bounds_iff. exact Hb.
Qed.

Lemma place_angle_some (lb ub : Z) (a : num) (gens : list (list point))
    (c : point) :
  on_axis a = false ->
  coordinate_generator lb ub a = Some gens ->
  In c (pool_of gens) ->
  exists p, place_angle lb ub a [] = Ok [p].
Proof.
  intros Hax Hg Hin.
  destruct (general_case_nonempty lb ub a gens [] Hg) as (c' & _ & _ & Hok).
  - intros Hnil. rewrite Hnil in Hin. contradiction.
  - unfold place_angle. rewrite Hax. eauto.
Qed.

Lemma place_72 (a : num) :
  val a = 72 -> place_angle 1 2 a [] = Ok [(PInt 0, PInt 1)].
Proof.
  intros Ha. pose proof (slope_72 a Ha) as Hs.
  assert (Hax : on_axis a = false)
    by (apply on_axis_false; rewrite Ha; repeat split; lra).
  unfold place_angle. rewrite Hax.
  unfold general_case. rewrite coordinate_generator_q1 by lra.
  assert (Hx : x_generator 1 2 1 2 (Py.tan (radians a)) 1 = []).
  { unfold x_generator. change (range 1 2 1) with [1%Z]. cbn [flat_map].
    destruct (in_bounds _ _ _) eqn:E; [| reflexivity].
    apply in_bounds_iff in E. unfold norm2 in E. cbn [fst snd] in E.
    rewrite val_mul in E.
    change (val (Py.tan (radians a))) with (slope_of a) in E.
    cbn [val] in E. exfalso. nra. }
  assert (Hq : 0 < 1 / slope_of a < 1 / 2).
  { split.
    - apply Rdiv_lt_0_compat; lra.
    - apply Rmult_lt_reg_r with (slope_of a); [lra |].
      unfold Rdiv. rewrite Rmult_1_l, Rinv_l by lra. lra. }
  assert (Hy : y_generator 1 2 1 2 (Py.tan (radians a)) 1
               = [(truediv (PInt 1) (Py.tan (radians a)), PInt 1)]).
  { unfold y_generator. change (range 1 2 1) with [1%Z]. cbn [flat_map].
    assert (E0 : eq (Py.tan (radians a)) (PInt 0) = false).
    { apply eq_false. change (val (Py.tan (radians a))) with (slope_of a).
      cbn [val]. lra. }
    rewrite E0.
    destruct (in_bounds _ _ _) eqn:E; [reflexivity |].
    exfalso. apply not_true_iff_false in E. apply E.
    apply in_bounds_iff. unfold norm2, truediv. cbn [fst snd val].
    change (val (Py.tan (radians a))) with (slope_of a).
    nra. }
  rewrite Hx, Hy. unfold pool_of. cbn [concat app].
  unfold sorted_candidates. cbn [map combine sort insert snd].
  unfold round_point, truediv. cbn [fst snd app round val].
  change (val (Py.tan (radians a))) with (slope_of a).
  rewrite (round_half_even_eq _ 0) by lra.
  reflexivity.
Qed.

Lemma place_144 (a : num) :
  val a = 144 -> exists p, place_angle 1 2 a [] = Ok [p].
Proof.
  intros Ha. pose proof (slope_144 a Ha) as Hs.
  eapply place_angle_some.
  - apply on_axis_false; rewrite Ha; repeat split; lra.
  - apply coordinate_generator_q2. lra.
  - unfold pool_of. cbn [concat]. apply in_or_app. left.
    apply (x_candidate _ _ _ _ _ _ (-1)); [apply range_down; lia |].
    change (val (Py.tan (radians a))) with (slope_of a). nra.
Qed.

Lemma place_216 (a : num) :
  val a = 216 -> exists p, place_angle 1 2 a [] = Ok [p].
Proof.
  intros Ha. pose proof (slope_216 a Ha) as Hs.
  eapply place_angle_some.
  - apply on_axis_false; rewrite Ha; repeat split; lra.
  - apply coordinate_generator_q3. lra.
  - unfold pool_of. cbn [concat]. apply in_or_app. left.
    apply (x_candidate _ _ _ _ _ _ (-1)); [apply range_down; lia |].
    change (val (Py.tan (radians a))) with (slope_of a). nra.
Qed.

Lemma place_288 (a : num) :
  val a = 288 -> exists p, place_angle 1 2 a [] = Ok [p].
Proof.
  intros Ha. pose proof (slope_288 a Ha) as Hs.
  assert (Hq : 0 < -1 / slope_of a < 1 / 2).
  { replace (-1 / slope_of a) with (1 / - slope_of a) by (field; lra).
    split.
    - apply Rdiv_lt_0_compat; lra.
    - apply Rmult_lt_reg_r with (- slope_of a); [lra |].
      unfold Rdiv. rewrite Rmult_1_l, Rinv_l by lra. lra. }
  eapply place_angle_some.
  - apply on_axis_false; rewrite Ha; repeat split; lra.
  - apply coordinate_generator_q4. lra.
  - unfold pool_of. cbn [concat]. apply in_or_app. right.
    apply in_or_app. left.
    apply (y_candidate _ _ _ _ _ _ (-1)).
    + change (val (Py.tan (radians a))) with (slope_of a). lra.
    + apply range_down; lia.
    + change (val (Py.tan (radians a))) with (slope_of a). nra.
Qed.

Lemma placed_points_5_1_2 :
  exists p2 p3 p4,
    placed_points 5 1 2
    = Ok [(PInt 0, PInt 1); p2; p3; p4; (PInt 1, PInt 0)].
Proof.
  destruct (place_144 (angle_of 5 1)) as (p2 & H2); [angle_value |].
  destruct (place_216 (angle_of 5 2)) as (p3 & H3); [angle_value |].
  destruct (place_288 (angle_of 5 3)) as (p4 & H4); [angle_value |].
  exists p2, p3, p4.
  apply placed_points_ok_intro.
  change (range 0 5 1) with [0%Z; 1%Z; 2%Z; 3%Z; 4%Z].
  repeat constructor; try assumption.
  - apply place_72. angle_value.
  - axis_iteration 360.
Qed.

(** *** Candidates and indices *)

(** Every candidate has an int coordinate and passed the bounds test. *)
Lemma pool_candidate (lb ub : Z) (a : num) (gens : list (list point))
    (c : point) :
  coordinate_generator lb ub a = Some gens ->
  In c (pool_of gens) ->
  (is_int (fst c) = true \/ is_int (snd c) = true)
  /\ in_bounds lb ub (distance_between_two_points origin c) = true.
Proof.
  intros Hg Hin.
  assert (Hcases :
    exists lo hi step lo' hi' step',
      gens = [ x_generator lo hi lb ub (Py.tan (radians a)) step;
               y_generator lo' hi' lb ub (Py.tan (radians a)) step' ]).
  { unfold coordinate_generator in Hg.
    repeat match type of Hg with
           | context [if ?b then _ else _] => destruct b
           end; inversion Hg; subst; repeat eexists. }
  destruct Hcases as (lo & hi & step & lo' & hi' & step' & ->).
  unfold pool_of in Hin. cbn [concat] in Hin.
  rewrite app_nil_r in Hin. apply in_app_or in Hin.
  destruct Hin as [Hin | Hin].
  - apply x_generator_spec in Hin. destruct Hin as (x & _ & -> & Hb).
    split; [now left | exact Hb].
  - apply y_generator_spec in Hin. destruct Hin as (y & _ & -> & Hb).
    split; [now right | exact Hb].
Qed.

Lemma Forall2_nth_error_r {A B : Type} (R : A -> B -> Prop)
    (l : list A) (l' : list B) :
  Forall2 R l l' ->
  forall i b, nth_error l' i = Some b ->
              exists a, nth_error l i = Some a /\ R a b.
Proof.
  induction 1 as [| a b l l' Hab Hrest IH]; intros i b' Hi.
  - destruct i; discriminate.
  - destruct i as [| i]; simpl in *.
    + inversion Hi; subst. eauto.
    + now apply IH.
Qed.

Lemma nth_error_range (count : Z) (i : nat) (a : Z) :
  nth_error (range 0 count 1) i = Some a -> a = Z.of_nat i.
Proof.
  unfold range. rewrite nth_error_map, nth_error_seq.
  destruct (Nat.ltb i _); simpl; intros H; inversion H. lia.
Qed.

(* ================================================================== *)
(** ** Further properties of the geometry primitives *)

Lemma sqrt_sum_zero (a b : R) :
  R_sqrt.sqrt (a ^ 2 + b ^ 2) = 0 <-> a = 0 /\ b = 0.
Proof.
  split.
  - intros H. apply sqrt_eq_0 in H; [| nra]. split; nra.
  - intros [-> ->]. replace (0 ^ 2 + 0 ^ 2) with 0 by ring. apply sqrt_0.
Qed.

Lemma ceil_val (x : num) : ceil x = Zceil (val x).
Proof. destruct x; simpl; [now rewrite Zceil_IZR | reflexivity]. Qed.

Lemma floor_val (x : num) : floor x = Zfloor (val x).
Proof. destruct x; simpl; [now rewrite ZfloorZ | reflexivity]. Qed.

Lemma Zceil_bound (u : R) : u <= IZR (Zceil u) < u + 1.
Proof.
  unfold Zceil. rewrite opp_IZR.
  pose proof (Zfloor_bound (- u)). lra.
Qed.

Lemma Zceil_Zfloor (u : R) :
  (Zceil u = Zfloor u /\ u = IZR (Zfloor u))
  \/ Zceil u = (Zfloor u + 1)%Z.
Proof.
  pose proof (Zfloor_bound u) as [Hf1 Hf2].
  pose proof (Zceil_bound u) as [Hc1 Hc2].
  assert (H0 : (Zfloor u <= Zceil u)%Z) by (apply le_IZR; lra).
  assert (H2 : (Zceil u < Zfloor u + 2)%Z)
    by (apply lt_IZR; rewrite plus_IZR; lra).
  destruct (Z.eq_dec (Zceil u) (Zfloor u)) as [E | N]; [| right; lia].
  left. split; [exact E |]. rewrite E in Hc1. lra.
Qed.

Lemma integer_gap_bounds (u : R) : 0 <= integer_gap u <= 1 / 2.
Proof.
  unfold integer_gap.
  pose proof (Zfloor_bound u) as [Hf1 Hf2].
  pose proof (Zceil_bound u) as [Hc1 Hc2].
  destruct (Zceil_Zfloor u) as [[E Hu] | E]; rewrite E;
    rewrite ?plus_IZR; unfold Rmin; destruct (Rle_dec _ _); lra.
Qed.

Lemma integer_gap_zero (u : R) :
  integer_gap u = 0 <-> exists a : Z, u = IZR a.
Proof.
  unfold integer_gap.
  pose proof (Zfloor_bound u) as [Hf1 Hf2].
  pose proof (Zceil_bound u) as [Hc1 Hc2].
  split.
  - unfold Rmin. destruct (Rle_dec _ _); intros H.
    + exists (Zfloor u). lra.
    + exists (Zceil u). lra.
  - intros [a ->]. rewrite ZfloorZ, Zceil_IZR.
    unfold Rmin. destruct (Rle_dec _ _); lra.
Qed.

Lemma integer_gap_opp (u : R) : integer_gap (- u) = integer_gap u.
Proof.
  unfold integer_gap, Zceil. rewrite Ropp_involutive, !opp_IZR.
  rewrite Rmin_comm. f_equal; lra.
Qed.

Lemma sqrt_sum_le (a b a' b' : R) :
  0 <= a <= a' -> 0 <= b <= b' ->
  R_sqrt.sqrt (a ^ 2 + b ^ 2) <= R_sqrt.sqrt (a' ^ 2 + b' ^ 2).
Proof. intros Ha Hb. apply sqrt_le_1_alt. nra. Qed.

(** The value of [distance_to_centerpoint]: the gaps of the two coordinates
    to their nearest integers, combined as a Euclidean length. *)
Lemma val_distance_to_centerpoint (x y : num) :
  val (distance_to_centerpoint x y)
  = R_sqrt.sqrt (integer_gap (val x) ^ 2 + integer_gap (val y) ^ 2).
Proof.
  unfold distance_to_centerpoint.
  destruct (is_int x && is_int y) eqn:Hint.
  - apply andb_true_iff in Hint. destruct Hint as [Hx Hy].
    destruct x as [a |]; [| discriminate].
    destruct y as [b |]; [| discriminate].
    cbn [val].
    assert (Ga : integer_gap (IZR a) = 0) by (apply integer_gap_zero; eauto).
    assert (Gb : integer_gap (IZR b) = 0) by (apply integer_gap_zero; eauto).
    rewrite Ga, Gb. replace (0 ^ 2 + 0 ^ 2) with 0 by ring.
    now rewrite sqrt_0.
  - rewrite val_min4. unfold Py.sqrt. cbn [val].
    rewrite !val_add, !val_sq, !val_sub. cbn [val].
    rewrite !ceil_val, !floor_val.
    set (u := val x). set (v := val y).
    pose proof (Zfloor_bound u) as [Hf1 Hf2].
    pose proof (Zceil_bound u) as [Hc1 Hc2].
    pose proof (Zfloor_bound v) as [Hg1 Hg2].
    pose proof (Zceil_bound v) as [Hd1 Hd2].
    replace ((u - IZR (Zceil u)) ^ 2) with ((IZR (Zceil u) - u) ^ 2) by ring.
    replace ((v - IZR (Zceil v)) ^ 2) with ((IZR (Zceil v) - v) ^ 2) by ring.
    set (a1 := IZR (Zceil u) - u) in *. set (a2 := u - IZR (Zfloor u)) in *.
    set (b1 := IZR (Zceil v) - v) in *. set (b2 := v - IZR (Zfloor v)) in *.
    assert (Ha1 : 0 <= a1) by (unfold a1; lra).
    assert (Ha2 : 0 <= a2) by (unfold a2; lra).
    assert (Hb1 : 0 <= b1) by (unfold b1; lra).
    assert (Hb2 : 0 <= b2) by (unfold b2; lra).
    unfold integer_gap. fold a1 a2 b1 b2.
    set (tr := R_sqrt.sqrt (a1 ^ 2 + b1 ^ 2)).
    set (bl := R_sqrt.sqrt (a2 ^ 2 + b2 ^ 2)).
    set (tl := R_sqrt.sqrt (a2 ^ 2 + b1 ^ 2)).
    set (br := R_sqrt.sqrt (a1 ^ 2 + b2 ^ 2)).
    assert (Hm : Rmin (Rmin (Rmin tr bl) tl) br <= tr
                 /\ Rmin (Rmin (Rmin tr bl) tl) br <= bl
                 /\ Rmin (Rmin (Rmin tr bl) tl) br <= tl
                 /\ Rmin (Rmin (Rmin tr bl) tl) br <= br).
    { pose proof (Rmin_l (Rmin (Rmin tr bl) tl) br).
      pose proof (Rmin_r (Rmin (Rmin tr bl) tl) br).
      pose proof (Rmin_l (Rmin tr bl) tl).
      pose proof (Rmin_r (Rmin tr bl) tl).
      pose proof (Rmin_l tr bl).
      pose proof (Rmin_r tr bl).
      repeat split; lra. }
    destruct Hm as (Htr & Hbl & Htl & Hbr).
    apply Rle_antisym.
    + destruct (Rle_dec a2 a1) as [Ha | Ha];
        destruct (Rle_dec b2 b1) as [Hb | Hb];
        [ rewrite (Rmin_left a2 a1), (Rmin_left b2 b1) by lra
        | rewrite (Rmin_left a2 a1), (Rmin_right b2 b1) by lra
        | rewrite (Rmin_right a2 a1), (Rmin_left b2 b1) by lra
        | rewrite (Rmin_right a2 a1), (Rmin_right b2 b1) by lra ];
        assumption.
    + assert (Hga : 0 <= Rmin a2 a1 /\ Rmin a2 a1 <= a2 /\ Rmin a2 a1 <= a1).
      { pose proof (Rmin_l a2 a1). pose proof (Rmin_r a2 a1).
        repeat split; try lra. apply Rmin_glb; lra. }
      assert (Hgb : 0 <= Rmin b2 b1 /\ Rmin b2 b1 <= b2 /\ Rmin b2 b1 <= b1).
      { pose proof (Rmin_l b2 b1). pose proof (Rmin_r b2 b1).
        repeat split; try lra. apply Rmin_glb; lra. }
      repeat apply Rmin_glb; apply sqrt_sum_le; lra.
Qed.

(** X2.  [distance_to_centerpoint x y] is the Euclidean length of the gaps
    of [x] and [y] to their nearest integers.  It lies between 0 and
    [sqrt (1/2)], is at most 1/2 when one coordinate has an integer value,
    and is 0 exactly when both have. *)
Theorem lattice_distance_bounds (x y : num) :
  val (distance_to_centerpoint x y)
  = R_sqrt.sqrt (integer_gap (val x) ^ 2 + integer_gap (val y) ^ 2)
  /\ 0 <= val (distance_to_centerpoint x y) <= R_sqrt.sqrt (1 / 2)
  /\ ((exists a : Z, val x = IZR a) \/ (exists b : Z, val y = IZR b) ->
      val (distance_to_centerpoint x y) <= 1 / 2)
  /\ (val (distance_to_centerpoint x y) = 0
      <-> (exists a : Z, val x = IZR a) /\ (exists b : Z, val y = IZR b)).
Proof.
  rewrite val_distance_to_centerpoint.
  pose proof (integer_gap_bounds (val x)) as Hx.
  pose proof (integer_gap_bounds (val y)) as Hy.
  split; [reflexivity |]. split; [| split].
  - split; [apply sqrt_pos |]. apply sqrt_le_1_alt. nra.
  - intros [Hi | Hi]; apply integer_gap_zero in Hi; rewrite Hi;
      [ replace (0 ^ 2 + integer_gap (val y) ^ 2)
          with (integer_gap (val y) ^ 2) by ring
      | replace (integer_gap (val x) ^ 2 + 0 ^ 2)
          with (integer_gap (val x) ^ 2) by ring ];
      rewrite sqrt_pow2; lra.
  - rewrite sqrt_sum_zero, !integer_gap_zero. tauto.
Qed.

(** X3.  The value of [distance_to_centerpoint] depends on the values of
    the coordinates only (not on their being ints or floats), and it is
    unchanged when a coordinate is negated and when the two coordinates
    are exchanged: the four lattice points around the mirrored point are
    the mirror images of the four around the point. *)
Theorem lattice_distance_invariant (x y x' y' : num) :
  (val x' = val x \/ val x' = - val x) ->
  (val y' = val y \/ val y' = - val y) ->
  val (distance_to_centerpoint x' y') = val (distance_to_centerpoint x y)
  /\ val (distance_to_centerpoint y x) = val (distance_to_centerpoint x y).
Proof.
  intros Hx Hy. rewrite !val_distance_to_centerpoint.
  assert (Gx : integer_gap (val x') = integer_gap (val x)).
  { destruct Hx as [-> | ->]; auto using integer_gap_opp. }
  assert (Gy : integer_gap (val y') = integer_gap (val y)).
  { destruct Hy as [-> | ->]; auto using integer_gap_opp. }
  rewrite Gx, Gy. split; [reflexivity |]. f_equal. ring.
Qed.

Lemma lattice_distance_invariant_witness :
  val (distance_to_centerpoint (PFloat (- (5 / 2))) (PFloat 3))
  = val (distance_to_centerpoint (PFloat (5 / 2)) (PInt 3)).
Proof.
  destruct (lattice_distance_invariant
              (PFloat (5 / 2)) (PInt 3) (PFloat (- (5 / 2))) (PFloat 3))
    as [H _].
  - right. reflexivity.
  - left. reflexivity.
  - exact H.
Defined.

(* ================================================================== *)
(** ** Further properties of the candidate generator *)

(** The sign of the slope in each quadrant. *)
Lemma slope_sign (a : num) :
  (0 < val a < 90 -> 0 < slope_of a)
  /\ (90 < val a < 180 -> slope_of a < 0)
  /\ (180 < val a < 270 -> 0 < slope_of a)
  /\ (270 < val a < 360 -> slope_of a < 0).
Proof.
  pose proof PI_RGT_0 as Hpi.
  unfold slope_of. cbn [Py.tan radians val].
  set (x := val a * (PI / 180)).
  assert (Hpos : forall y, - (PI / 2) < y < PI / 2 -> Rtrigo_def.cos y <> 0).
  { intros y Hy. assert (0 < Rtrigo_def.cos y) by (apply cos_gt_0; lra).
    lra. }
  repeat split; intros Ha.
  - apply tan_gt_0; unfold x; nra.
  - replace x with (PI + (x - PI)) by ring.
    rewrite tan_pi_plus by (apply Hpos; unfold x; nra).
    apply tan_lt_0; unfold x; nra.
  - replace x with (PI + (x - PI)) by ring.
    rewrite tan_pi_plus by (apply Hpos; unfold x; nra).
    apply tan_gt_0; unfold x; nra.
  - replace x with (PI + (PI + (x - 2 * PI))) by ring.
    rewrite tan_pi_plus.
    + rewrite tan_pi_plus by (apply Hpos; unfold x; nra).
      apply tan_lt_0; unfold x; nra.
    + rewrite cos_pi_plus.
      assert (Rtrigo_def.cos (x - 2 * PI) <> 0)
        by (apply Hpos; unfold x; nra).
      lra.
Qed.

Lemma slope_nonzero (a : num) :
  0 < val a < 360 -> on_axis a = false -> slope_of a <> 0.
Proof.
  intros Ha Hax. apply on_axis_false in Hax.
  destruct Hax as (_ & H90 & H180 & H270 & _).
  destruct (slope_sign a) as (S1 & S2 & S3 & S4).
  destruct (Rlt_dec (val a) 90); [specialize (S1 ltac:(lra)); lra |].
  destruct (Rlt_dec (val a) 180); [specialize (S2 ltac:(lra)); lra |].
  destruct (Rlt_dec (val a) 270); [specialize (S3 ltac:(lra)); lra |].
  specialize (S4 ltac:(lra)); lra.
Qed.

(** What a candidate of the x-scan and of the y-scan looks like. *)
Lemma x_scan_candidate (lo hi lb ub : Z) (a : num) (step : Z) (c : point) :
  In c (x_generator lo hi lb ub (Py.tan (radians a)) step) ->
  exists x, In x (range lo hi step)
            /\ c = (PInt x, PFloat (slope_of a * IZR x)).
Proof.
  intros H. apply x_generator_spec in H.
  destruct H as (x & Hx & -> & _). exists x. split; [assumption |].
  reflexivity.
Qed.

Lemma y_scan_candidate (lo hi lb ub : Z) (a : num) (step : Z) (c : point) :
  slope_of a <> 0 ->
  In c (y_generator lo hi lb ub (Py.tan (radians a)) step) ->
  exists y, In y (range lo hi step)
            /\ c = (PFloat (IZR y / slope_of a), PInt y).
Proof.
  intros Hs H. apply y_generator_spec in H.
  destruct H as (y & Hy & -> & _). exists y. split; [assumption |].
  assert (E : eq (Py.tan (radians a)) (PInt 0) = false)
    by (apply eq_false; exact Hs).
  rewrite E. reflexivity.
Qed.

Lemma pool_shape (lb ub : Z) (a : num) (gens : list (list point))
    (c : point) :
  0 < val a < 360 -> on_axis a = false ->
  coordinate_generator lb ub a = Some gens ->
  In c (pool_of gens) ->
  (exists x, c = (PInt x, PFloat (slope_of a * IZR x))
             /\ x_scanned (val a) ub x)
  \/ (exists y, c = (PFloat (IZR y / slope_of a), PInt y)
                /\ y_scanned (val a) ub y).
Proof.
  intros Ha Hax Hg Hin.
  pose proof (slope_nonzero a Ha Hax) as Hs.
  apply on_axis_false in Hax. destruct Hax as (_ & H90 & H180 & H270 & _).
  unfold x_scanned, y_scanned.
  destruct (Rlt_dec (val a) 90) as [Hq1 | Hq1];
    [| destruct (Rlt_dec (val a) 180) as [Hq2 | Hq2];
       [| destruct (Rlt_dec (val a) 270) as [Hq3 | Hq3]]].
  - rewrite coordinate_generator_q1 in Hg by lra.
    inversion Hg; subst gens; clear Hg.
    unfold pool_of in Hin. cbn [concat] in Hin. rewrite app_nil_r in Hin.
    apply in_app_or in Hin. destruct Hin as [Hin | Hin].
    + apply x_scan_candidate in Hin. destruct Hin as (x & Hx & ->).
      apply range_up in Hx. left. exists x. split; [reflexivity |].
      left. split; [left; lra | lia].
    + apply y_scan_candidate in Hin; [| assumption].
      destruct Hin as (y & Hy & ->).
      apply range_up in Hy. right. exists y. split; [reflexivity |].
      left. split; [lra | lia].
  - rewrite coordinate_generator_q2 in Hg by lra.
    inversion Hg; subst gens; clear Hg.
    unfold pool_of in Hin. cbn [concat] in Hin. rewrite app_nil_r in Hin.
    apply in_app_or in Hin. destruct Hin as [Hin | Hin].
    + apply x_scan_candidate in Hin. destruct Hin as (x & Hx & ->).
      apply range_down in Hx. left. exists x. split; [reflexivity |].
      right. split; [lra | lia].
    + apply y_scan_candidate in Hin; [| assumption].
      destruct Hin as (y & Hy & ->).
      apply range_up in Hy. right. exists y. split; [reflexivity |].
      left. split; [lra | lia].
  - rewrite coordinate_generator_q3 in Hg by lra.
    inversion Hg; subst gens; clear Hg.
    unfold pool_of in Hin. cbn [concat] in Hin. rewrite app_nil_r in Hin.
    apply in_app_or in Hin. destruct Hin as [Hin | Hin].
    + apply x_scan_candidate in Hin. destruct Hin as (x & Hx & ->).
      apply range_down in Hx. left. exists x. split; [reflexivity |].
      right. split; [lra | lia].
    + apply y_scan_candidate in Hin; [| assumption].
      destruct Hin as (y & Hy & ->).
      apply range_down in Hy. right. exists y. split; [reflexivity |].
      right. split; [lra | lia].
  - rewrite coordinate_generator_q4 in Hg by lra.
    inversion Hg; subst gens; clear Hg.
    unfold pool_of in Hin. cbn [concat] in Hin. rewrite app_nil_r in Hin.
    apply in_app_or in Hin. destruct Hin as [Hin | Hin].
    + apply x_scan_candidate in Hin. destruct Hin as (x & Hx & ->).
      apply range_up in Hx. left. exists x. split; [reflexivity |].
      left. split; [right; lra | lia].
    + apply y_scan_candidate in Hin; [| assumption].
      destruct Hin as (y & Hy & ->).
      apply range_down in Hy. right. exists y. split; [reflexivity |].
      right. split; [lra | lia].
Qed.

Lemma lattice_distance_half (x y : num) :
  is_int x = true \/ is_int y = true ->
  val (distance_to_centerpoint x y) <= 1 / 2.
Proof.
  intros H. rewrite val_distance_to_centerpoint.
  pose proof (integer_gap_bounds (val x)) as Hx.
  pose proof (integer_gap_bounds (val y)) as Hy.
  destruct H as [H | H].
  - destruct x as [k |]; [| discriminate]. cbn [val].
    assert (G : integer_gap (IZR k) = 0) by (apply integer_gap_zero; eauto).
    rewrite G.
    replace (0 ^ 2 + integer_gap (val y) ^ 2)
      with (integer_gap (val y) ^ 2) by ring.
    rewrite sqrt_pow2; lra.
  - destruct y as [k |]; [| discriminate]. cbn [val].
    assert (G : integer_gap (IZR k) = 0) by (apply integer_gap_zero; eauto).
    rewrite G.
    replace (integer_gap (val x) ^ 2 + 0 ^ 2)
      with (integer_gap (val x) ^ 2) by ring.
    rewrite sqrt_pow2; lra.
Qed.

Lemma candidate_facts (lb ub : Z) (a : num) (gens : list (list point))
    (c : point) :
  0 < val a < 360 -> on_axis a = false ->
  coordinate_generator lb ub a = Some gens ->
  In c (pool_of gens) ->
  val (snd c) = slope_of a * val (fst c)
  /\ in_quadrant (val a) (val (fst c)) (val (snd c))
  /\ ((exists k, fst c = PInt k /\ (1 <= Z.abs k < ub)%Z)
      \/ (exists k, snd c = PInt k /\ (1 <= Z.abs k < ub)%Z)).
Proof.
  intros Ha Hax Hg Hin.
  pose proof (slope_nonzero a Ha Hax) as Hs.
  destruct (slope_sign a) as (S1 & S2 & S3 & S4).
  destruct (pool_shape lb ub a gens c Ha Hax Hg Hin)
    as [(x & -> & Hx) | (y & -> & Hy)]; cbn [fst snd val].
  - split; [reflexivity |].
    unfold x_scanned in Hx. unfold in_quadrant.
    destruct Hx as [[Hq Hr] | [Hq Hr]].
    + assert (Hx1 : 1 <= IZR x) by (apply IZR_le; lia).
      split; [| left; exists x; split; [reflexivity | lia]].
      destruct Hq as [Hq | Hq].
      * left. specialize (S1 Hq). repeat split; try lra. nra.
      * right; right; right. specialize (S4 Hq). repeat split; try lra. nra.
    + assert (Hx1 : IZR x <= -1) by (apply IZR_le; lia).
      split; [| left; exists x; split; [reflexivity | lia]].
      apply on_axis_false in Hax.
      destruct (Rlt_dec (val a) 180) as [Hq2 | Hq2].
      * right; left. specialize (S2 ltac:(lra)). repeat split; try lra. nra.
      * right; right; left. specialize (S3 ltac:(lra)).
        repeat split; try lra. nra.
  - assert (Hq : IZR y / slope_of a * slope_of a = IZR y) by (field; lra).
    set (q := IZR y / slope_of a) in *.
    split; [lra |].
    unfold y_scanned in Hy. unfold in_quadrant.
    apply on_axis_false in Hax.
    destruct Hy as [[Hqa Hr] | [Hqa Hr]].
    + assert (Hy1 : 1 <= IZR y) by (apply IZR_le; lia).
      split; [| right; exists y; split; [reflexivity | lia]].
      destruct (Rlt_dec (val a) 90) as [Hq1 | Hq1].
      * left. specialize (S1 ltac:(lra)). repeat split; try lra. nra.
      * right; left. specialize (S2 ltac:(lra)). repeat split; try lra. nra.
    + assert (Hy1 : IZR y <= -1) by (apply IZR_le; lia).
      split; [| right; exists y; split; [reflexivity | lia]].
      destruct (Rlt_dec (val a) 270) as [Hq3 | Hq3].
      * right; right; left. specialize (S3 ltac:(lra)).
        repeat split; try lra. nra.
      * right; right; right. specialize (S4 ltac:(lra)).
        repeat split; try lra. nra.
Qed.

(** X4.  Every candidate of an angle that is not on an axis is a point
    [(k, slope * k)] of the x-scan or a point [(k / slope, k)] of the
    y-scan, [k] an integer of the range of the quadrant, so that
    [1 <= |k| < upper_bounds]; the signs of its coordinates are those of
    the open quadrant of the angle, and its distance to the nearest lattice
    point, the first sort key, is at most 1/2. *)
Theorem candidates_on_ray_in_quadrant (lower_bounds upper_bounds : Z)
    (angle_deg : num) (gens : list (list point)) (c : point) :
  0 < val angle_deg < 360 -> on_axis angle_deg = false ->
  coordinate_generator lower_bounds upper_bounds angle_deg = Some gens ->
  In c (pool_of gens) ->
  ((exists k, c = (PInt k, mul (Py.tan (radians angle_deg)) (PInt k))
              /\ x_scanned (val angle_deg) upper_bounds k)
   \/ (exists k, c = (truediv (PInt k) (Py.tan (radians angle_deg)), PInt k)
                 /\ y_scanned (val angle_deg) upper_bounds k))
  /\ in_quadrant (val angle_deg) (val (fst c)) (val (snd c))
  /\ ((exists k, fst c = PInt k /\ (1 <= Z.abs k < upper_bounds)%Z)
      \/ (exists k, snd c = PInt k /\ (1 <= Z.abs k < upper_bounds)%Z))
  /\ val (distance_to_centerpoint (fst c) (snd c)) <= 1 / 2.
Proof.
  intros Ha Hax Hg Hin.
  destruct (candidate_facts _ _ _ _ _ Ha Hax Hg Hin) as (_ & Hq & Hint).
  split; [exact (pool_shape _ _ _ _ _ Ha Hax Hg Hin) |].
  repeat split; try assumption.
  apply lattice_distance_half.
  destruct Hint as [(k & -> & _) | (k & -> & _)]; auto.
Qed.

Lemma candidate_45 :
  In (PInt 1, mul (Py.tan (radians (PInt 45))) (PInt 1))
    (pool_of [ x_generator 1 2 1 2 (Py.tan (radians (PInt 45))) 1;
               y_generator 1 2 1 2 (Py.tan (radians (PInt 45))) 1 ]).
Proof.
  unfold pool_of. cbn [concat]. apply in_or_app. left.
  apply x_candidate; [apply range_up; lia |].
  change (val (Py.tan (radians (PInt 45))))
    with (Rtrigo1.tan (val (radians (PInt 45)))).
  rewrite tan_45. lra.
Qed.

Lemma candidates_on_ray_in_quadrant_witness :
  in_quadrant 45 1 (val (mul (Py.tan (radians (PInt 45))) (PInt 1))).
Proof.
  destruct (candidates_on_ray_in_quadrant 1 2 (PInt 45)
              [ x_generator 1 2 1 2 (Py.tan (radians (PInt 45))) 1;
                y_generator 1 2 1 2 (Py.tan (radians (PInt 45))) 1 ]
              (PInt 1, mul (Py.tan (radians (PInt 45))) (PInt 1)))
    as (_ & Hq & _).
  - cbn [val]. lra.
  - not_on_axis.
  - apply coordinate_generator_q1. cbn [val]. lra.
  - apply candidate_45.
  - exact Hq.
Defined.

Lemma flat_map_length_le {A B : Type} (f : A -> list B) (l : list A) :
  (forall x, (length (f x) <= 1)%nat) ->
  (length (flat_map f l) <= length l)%nat.
Proof.
  intros Hf. induction l as [| x l IH]; simpl; [lia |].
  rewrite length_app. specialize (Hf x). lia.
Qed.

Lemma x_generator_length (lo hi lb ub : Z) (slope : num) (step : Z) :
  (length (x_generator lo hi lb ub slope step)
   <= length (range lo hi step))%nat.
Proof.
  unfold x_generator. apply flat_map_length_le.
  intros x. destruct (in_bounds _ _ _); simpl; lia.
Qed.

Lemma y_generator_length (lo hi lb ub : Z) (slope : num) (step : Z) :
  (length (y_generator lo hi lb ub slope step)
   <= length (range lo hi step))%nat.
Proof.
  unfold y_generator. apply flat_map_length_le.
  intros y. destruct (in_bounds _ _ _); simpl; lia.
Qed.

Lemma range_up_length (ub : Z) :
  length (range 1 ub 1) = Z.to_nat (ub - 1).
Proof.
  unfold range, range_len. rewrite length_map, length_seq.
  destruct (Z.ltb_spec 0 1) as [_ | H01]; [| lia].
  destruct (Z.ltb_spec 1 ub); [rewrite Z.div_1_r |]; lia.
Qed.

Lemma range_down_length (ub : Z) :
  length (range (-1) (- ub) (-1)) = Z.to_nat (ub - 1).
Proof.
  unfold range, range_len. rewrite length_map, length_seq.
  destruct (Z.ltb_spec 0 (-1)) as [H01 | _]; [lia |].
  destruct (Z.ltb_spec (-1) 0) as [_ | H01]; [| lia].
  destruct (Z.ltb_spec (- ub) (-1)).
  - change (- -1)%Z with 1%Z. rewrite Z.div_1_r. lia.
  - lia.
Qed.

Lemma pool_length (lb ub : Z) (a : num) (gens : list (list point)) :
  coordinate_generator lb ub a = Some gens ->
  (length (pool_of gens) <= 2 * Z.to_nat (ub - 1))%nat.
Proof.
  intros Hg.
  pose proof (x_generator_length 1 ub lb ub (Py.tan (radians a)) 1) as X1.
  pose proof (x_generator_length (-1) (- ub) lb ub (Py.tan (radians a)) (-1))
    as X2.
  pose proof (y_generator_length 1 ub lb ub (Py.tan (radians a)) 1) as Y1.
  pose proof (y_generator_length (-1) (- ub) lb ub (Py.tan (radians a)) (-1))
    as Y2.
  rewrite range_up_length in X1, Y1. rewrite range_down_length in X2, Y2.
  unfold coordinate_generator in Hg.
  repeat match type of Hg with
         | context [if ?b then _ else _] => destruct b
         end; inversion Hg; subst; unfold pool_of; cbn [concat];
    rewrite !length_app; simpl length; lia.
Qed.

(** X5.  A pool holds at most one candidate for each integer of the two
    scans, [2 * (upper_bounds - 1)] candidates in all, and none when
    [upper_bounds <= 1]. *)
Theorem pool_size_bound (lower_bounds upper_bounds : Z) (angle_deg : num)
    (gens : list (list point)) :
  coordinate_generator lower_bounds upper_bounds angle_deg = Some gens ->
  (length (pool_of gens) <= 2 * Z.to_nat (upper_bounds - 1))%nat
  /\ ((upper_bounds <= 1)%Z -> pool_of gens = []).
Proof.
  intros Hg. pose proof (pool_length _ _ _ _ Hg) as Hl.
  split; [exact Hl |].
  intros Hu. destruct (pool_of gens); [reflexivity |].
  simpl in Hl. lia.
Qed.

Lemma pool_size_bound_witness :
  (length (pool_of [ x_generator 1 2 1 2 (Py.tan (radians (PInt 45))) 1;
                     y_generator 1 2 1 2 (Py.tan (radians (PInt 45))) 1 ])
   <= 2)%nat.
Proof.
  destruct (pool_size_bound 1 2 (PInt 45)
              [ x_generator 1 2 1 2 (Py.tan (radians (PInt 45))) 1;
                y_generator 1 2 1 2 (Py.tan (radians (PInt 45))) 1 ])
    as [H _].
  - apply coordinate_generator_q1. cbn [val]. lra.
  - exact H.
Defined.

(* ================================================================== *)
(** ** Further properties of the placement engine *)

Lemma place_angle_no_candidate (lb ub : Z) (a : num) (result : list point) :
  (ub <= 1)%Z \/ (Z.abs ub <= Z.abs lb)%Z ->
  on_axis a = false -> val a < 360 ->
  place_angle lb ub a result = Raise IndexError.
Proof.
  intros [Hu | Hinv] Hax Ha.
  - unfold place_angle. rewrite Hax.
    destruct (coordinate_generator_some lb ub a Ha) as (xs & ys & Hg).
    apply general_case_empty with [xs; ys]; [assumption |].
    pose proof (pool_length _ _ _ _ Hg) as Hl.
    destruct (pool_of [xs; ys]); [reflexivity | simpl in Hl; lia].
  - now apply place_angle_inverted.
Qed.

(** X6.  When the annulus holds no candidate because
    [maximum <= 1] or [|maximum| <= |minimum|], a call for 3 points or for
    5 points and more ends with [IndexError]: its first angle is not on an
    axis and has an empty pool. *)
Theorem empty_annulus_raises (count : Z) (offset : point)
    (minimum maximum : Z) :
  (maximum <= 1)%Z \/ (Z.abs maximum <= Z.abs minimum)%Z ->
  (count = 3 \/ 5 <= count)%Z ->
  coordinate_placement count offset minimum maximum = Raise IndexError.
Proof.
  intros Hb Hc.
  apply coordinate_placement_raise.
  apply placed_points_index_error with 0%Z; [lia |].
  assert (Hv : 0 < val (angle_of count 0) < 90
               \/ val (angle_of count 0) = 120).
  { destruct Hc as [-> | Hc].
    - right. apply val_angle_3_0.
    - left. now apply first_angle_small. }
  apply place_angle_no_candidate; [assumption | |].
  - apply on_axis_false. repeat split; lra.
  - lra.
Qed.

Lemma empty_annulus_raises_witness :
  coordinate_placement 7 origin 0 1 = Raise IndexError.
Proof. apply empty_annulus_raises; [left | right]; lia. Defined.

Lemma range_empty (count : Z) : (count <= 0)%Z -> range 0 count 1 = [].
Proof.
  intros H. unfold range, range_len.
  destruct (Z.ltb_spec 0 1) as [_ | H01]; [| lia].
  destruct (Z.ltb_spec 0 count); [lia | reflexivity].
Qed.

(** X7.  The [Warning] of the length check is raised exactly when [count]
    is negative: the loop then does not run and the empty result has not
    [count] elements.  With [count = 0] the call returns the empty
    list. *)
Theorem warning_iff_negative_count (count : Z) (offset : point)
    (minimum maximum : Z) :
  (coordinate_placement count offset minimum maximum = Raise Warning
   <-> (count < 0)%Z)
  /\ (count = 0%Z ->
      coordinate_placement count offset minimum maximum = Ok []).
Proof.
  split.
  - split.
    + intros H.
      destruct (Z.lt_ge_cases count 0) as [Hneg | Hpos]; [assumption |].
      exfalso.
      destruct (placed_points count minimum maximum) as [r | e] eqn:E.
      * rewrite (coordinate_placement_ok count offset _ _ r) in H
          by (auto; lia).
        discriminate.
      * pose proof (placed_points_raise_inv _ _ _ _ E) as ->.
        rewrite (coordinate_placement_raise _ offset _ _ _ E) in H.
        discriminate.
    + intros Hneg. unfold coordinate_placement, placed_points.
      rewrite range_empty by lia.
      cbn [for_each bind apply_offset map length Z.of_nat].
      destruct (Z.eqb_spec 0 count); [lia | reflexivity].
  - intros ->. reflexivity.
Qed.

Lemma round_nonneg (v : num) : 0 <= val v -> (0 <= round v)%Z.
Proof.
  intros H. pose proof (round_near v) as Hn.
  assert (Hr : - (1 / 2) <= IZR (round v) - val v)
    by (revert Hn; unfold Rabs; destruct (Rcase_abs _); lra).
  assert (Hlt : (-1 < round v)%Z) by (apply lt_IZR; lra). lia.
Qed.

Lemma round_nonpos (v : num) : val v <= 0 -> (round v <= 0)%Z.
Proof.
  intros H. pose proof (round_near v) as Hn.
  assert (Hr : IZR (round v) - val v <= 1 / 2)
    by (revert Hn; unfold Rabs; destruct (Rcase_abs _); lra).
  assert (Hlt : (round v < 1)%Z) by (apply lt_IZR; lra). lia.
Qed.

Lemma round_abs_bound (v : num) (n : Z) :
  Rabs (val v) < IZR n -> (Z.abs (round v) <= n)%Z.
Proof.
  intros H. pose proof (round_near v) as Hn.
  assert (Hv : - IZR n < val v < IZR n)
    by (revert H; unfold Rabs; destruct (Rcase_abs _); lra).
  assert (Hr : - (1 / 2) <= IZR (round v) - val v <= 1 / 2)
    by (revert Hn; unfold Rabs; destruct (Rcase_abs _); lra).
  assert (H1 : (round v < n + 1)%Z)
    by (apply lt_IZR; rewrite plus_IZR; lra).
  assert (H2 : (- n - 1 < round v)%Z)
    by (apply lt_IZR; rewrite minus_IZR, opp_IZR; lra).
  lia.
Qed.

Lemma coordinates_below_dist (p : point) :
  Rabs (val (fst p)) <= dist p /\ Rabs (val (snd p)) <= dist p.
Proof.
  rewrite dist_norm2. unfold norm2.
  split.
  - rewrite <- sqrt_pow2 with (x := Rabs (val (fst p))) by apply Rabs_pos.
    apply sqrt_le_1_alt. rewrite <- !Rsqr_pow2, <- Rsqr_abs. 
    pose proof (Rle_0_sqr (val (snd p))). lra.
  - rewrite <- sqrt_pow2 with (x := Rabs (val (snd p))) by apply Rabs_pos.
    apply sqrt_le_1_alt. rewrite <- !Rsqr_pow2, <- Rsqr_abs.
    pose proof (Rle_0_sqr (val (fst p))). lra.
Qed.

Lemma place_angle_quadrant (lb ub : Z) (a : num) (p : point) :
  0 < val a < 360 -> on_axis a = false ->
  place_angle lb ub a [] = Ok [p] ->
  exists x y,
    p = (PInt x, PInt y)
    /\ in_closed_quadrant (val a) x y
    /\ (x <> 0 \/ y <> 0)%Z
    /\ (Z.abs x <= ub /\ Z.abs y <= ub)%Z.
Proof.
  intros Ha Hax Hp. unfold place_angle in Hp. rewrite Hax in Hp.
  apply general_case_ok_single in Hp.
  destruct Hp as (c & gens & Hg & Hin & _ & Hpt). inversion Hpt; subst p.
  destruct (candidate_facts _ _ _ _ _ Ha Hax Hg Hin) as (_ & Hq & Hint).
  destruct (pool_candidate _ _ _ _ _ Hg Hin) as [_ Hb].
  apply in_bounds_dist in Hb. destruct Hb as [_ Hb].
  destruct (coordinates_below_dist c) as [Hx Hy].
  assert (Hub : (0 < ub)%Z) by (destruct Hint as [(k & _ & ?) | (k & _ & ?)]; lia).
  rewrite Rabs_pos_eq in Hb by (apply IZR_le; lia).
  exists (round (fst c)), (round (snd c)).
  split; [reflexivity |]. split; [| split].
  - unfold in_quadrant in Hq. unfold in_closed_quadrant.
    destruct Hq as [(Q & U & V) | [(Q & U & V) | [(Q & U & V) | (Q & U & V)]]];
      [left | right; left | right; right; left | right; right; right];
      (split; [exact Q |]);
      split;
      first [apply round_nonneg; lra | apply round_nonpos; lra].
  - destruct Hint as [(k & E & Hk) | (k & E & Hk)]; rewrite E; cbn [round];
      [left | right]; lia.
  - split; apply round_abs_bound; lra.
Qed.

(** X8.  In a successful call the point of an angle that is not on an
    axis, before the offset is added, is a pair of ints in the closed
    quadrant of the angle; it is not the origin, and neither coordinate
    exceeds [maximum] in absolute value. *)
Theorem placed_point_in_quadrant (count : Z) (offset : point)
    (minimum maximum : Z) (r : list point) :
  coordinate_placement count offset minimum maximum = Ok r ->
  exists core,
    placed_points count minimum maximum = Ok core
    /\ r = apply_offset offset core
    /\ forall (i : nat) (p : point),
         nth_error core i = Some p ->
         on_axis (angle_of count (Z.of_nat i)) = false ->
         exists x y,
           p = (PInt x, PInt y)
           /\ in_closed_quadrant (val (angle_of count (Z.of_nat i))) x y
           /\ (x <> 0 \/ y <> 0)%Z
           /\ (Z.abs x <= maximum /\ Z.abs y <= maximum)%Z.
Proof.
  intros Hr.
  apply coordinate_placement_ok_inv in Hr.
  destruct Hr as (core & Hcore & -> & _).
  exists core. split; [exact Hcore |]. split; [reflexivity |].
  intros i p Hp Hax.
  pose proof (placed_points_ok_inv _ _ _ _ Hcore) as HF.
  destruct (Forall2_nth_error_r _ _ _ HF i p Hp) as (k & Hk & Hplace).
  assert (Hin : In k (range 0 count 1)) by (eapply nth_error_In; eassumption).
  apply range_up in Hin.
  apply nth_error_range in Hk. subst k.
  pose proof (angle_of_range count (Z.of_nat i) Hin) as Hrange.
  apply place_angle_quadrant with minimum; try assumption.
  apply on_axis_false in Hax. lra.
Qed.

Lemma placed_point_in_quadrant_witness :
  in_closed_quadrant (val (angle_of 5 (Z.of_nat 0))) 0 1.
Proof.
  destruct placed_points_5_1_2 as (p2 & p3 & p4 & Hp).
  destruct (placed_point_in_quadrant 5 origin 1 2
              (apply_offset origin
                 [(PInt 0, PInt 1); p2; p3; p4; (PInt 1, PInt 0)]))
    as (core & Hcore & _ & Hall).
  - apply coordinate_placement_ok; [lia | exact Hp].
  - rewrite Hp in Hcore. inversion Hcore; subst core.
    destruct (Hall 0%nat (PInt 0, PInt 1) eq_refl) as (x & y & E & Hq & _).
    + apply on_axis_false.
      replace (val (angle_of 5 (Z.of_nat 0))) with 72
        by (symmetry; rewrite val_angle_of; simpl Z.add; lra).
      repeat split; lra.
    + inversion E; subst. exact Hq.
Defined.

Lemma place_angle_ints (lb ub : Z) (a : num) (p : point) :
  place_angle lb ub a [] = Ok [p] ->
  exists x y : Z, p = (PInt x, PInt y).
Proof.
  unfold place_angle. destruct (on_axis a) eqn:Hax.
  - rewrite axis_case_point by assumption. intros H; inversion H.
    unfold axis_point.
    destruct (Reqb _ 90); [eauto |].
    destruct (Reqb _ 180); [eauto |].
    destruct (Reqb _ 270); eauto.
  - intros H. apply general_case_ok_single in H.
    destruct H as (c & gens & _ & _ & _ & Hpt). inversion Hpt.
    unfold round_point. eauto.
Qed.

(** X9.  Every point of a result is a pair of ints moved by the offset; with
    an offset of two ints the result holds ints only. *)
Theorem outputs_are_integers (count : Z) (offset : point)
    (minimum maximum : Z) (r : list point) :
  coordinate_placement count offset minimum maximum = Ok r ->
  Forall (fun p => exists x y : Z, p = shift offset (PInt x, PInt y)) r
  /\ (is_int (fst offset) = true -> is_int (snd offset) = true ->
      Forall (fun p => is_int (fst p) = true /\ is_int (snd p) = true) r).
Proof.
  intros Hr.
  apply coordinate_placement_ok_inv in Hr.
  destruct Hr as (core & Hcore & -> & _).
  pose proof (placed_points_ok_inv _ _ _ _ Hcore) as HF.
  assert (Hints : Forall (fun p => exists x y : Z, p = (PInt x, PInt y)) core).
  { clear Hcore. induction HF as [| i p idx ps Hp _ IH]; constructor; auto.
    eapply place_angle_ints; eassumption. }
  clear HF Hcore. unfold apply_offset.
  split.
  - induction Hints as [| p ps (x & y & ->) _ IH]; cbn [map];
      constructor; [exists x, y; reflexivity | exact IH].
  - intros Hx Hy.
    destruct offset as [[ox |] [oy |]]; try discriminate.
    induction Hints as [| p ps (x & y & ->) _ IH]; simpl; constructor; auto.
Qed.

Lemma outputs_are_integers_witness :
  Forall (fun p => is_int (fst p) = true /\ is_int (snd p) = true)
    [(PInt 15, PInt 5)].
Proof.
  destruct (outputs_are_integers 1 (PInt 5, PInt 5) 10 20
              [(PInt 15, PInt 5)]) as [_ H].
  - rewrite (coordinate_placement_ok 1 _ 10 20 [(PInt 10, PInt 0)]);
      [reflexivity | lia | apply placed_points_1].
  - apply H; reflexivity.
Defined.

(** X10.  For 1, 2 and 4 points every angle is on an axis: whatever the
    bounds, the call returns the axis points at radius [minimum], west
    before east and north first, moved by the offset; [maximum] plays no
    part. *)
Theorem axis_only_counts (offset : point) (minimum maximum : Z) :
  coordinate_placement 1 offset minimum maximum
  = Ok [shift offset (PInt minimum, PInt 0)]
  /\ coordinate_placement 2 offset minimum maximum
     = Ok [ shift offset (PInt (- minimum), PInt 0);
            shift offset (PInt minimum, PInt 0) ]
  /\ coordinate_placement 4 offset minimum maximum
     = Ok [ shift offset (PInt 0, PInt minimum);
            shift offset (PInt (- minimum), PInt 0);
            shift offset (PInt 0, PInt (- minimum));
            shift offset (PInt minimum, PInt 0) ].
Proof.
  repeat split.
  - rewrite (coordinate_placement_ok 1 offset _ _ _ ltac:(lia)
               (placed_points_1 minimum maximum)).
    reflexivity.
  - rewrite (coordinate_placement_ok 2 offset _ _ _ ltac:(lia)
               (placed_points_2 minimum maximum)).
    reflexivity.
  - rewrite (coordinate_placement_ok 4 offset _ _ _ ltac:(lia)
               (placed_points_4 minimum maximum)).
    reflexivity.
Qed.

(** *** Halving the angular step *)

Lemma angle_of_float (count i : Z) :
  angle_of count i = PFloat (360 / IZR count * IZR (i + 1)).
Proof. reflexivity. Qed.

Lemma angle_of_double (n i : Z) :
  (1 <= n)%Z -> angle_of (2 * n) (2 * i + 1) = angle_of n i.
Proof.
  intros Hn. rewrite !angle_of_float. f_equal.
  assert (H : 1 <= IZR n) by (apply IZR_le; assumption).
  replace (2 * i + 1 + 1)%Z with (2 * (i + 1))%Z by lia.
  rewrite !mult_IZR. field. lra.
Qed.

Lemma Forall2_nth_error_l {A B : Type} (R : A -> B -> Prop)
    (l : list A) (l' : list B) :
  Forall2 R l l' ->
  forall i a, nth_error l i = Some a ->
              exists b, nth_error l' i = Some b /\ R a b.
Proof.
  induction 1 as [| a b l l' Hab Hrest IH]; intros i a' Hi.
  - destruct i; discriminate.
  - destruct i as [| i]; simpl in *.
    + inversion Hi; subst. eauto.
    + now apply IH.
Qed.

Lemma nth_error_range_lt (count : Z) (i : nat) :
  (Z.of_nat i < count)%Z ->
  nth_error (range 0 count 1) i = Some (Z.of_nat i).
Proof.
  intros H. unfold range, range_len.
  destruct (Z.ltb_spec 0 1) as [_ | H01]; [| lia].
  destruct (Z.ltb_spec 0 count); [| lia].
  rewrite Z.div_1_r, nth_error_map, nth_error_seq.
  match goal with
  | |- context [Nat.ltb i ?m] => destruct (Nat.ltb_spec i m); [| lia]
  end.
  simpl option_map. f_equal. lia.
Qed.

Lemma Forall2_map_seq {A B : Type} (R : A -> B -> Prop)
    (f : nat -> A) (g : nat -> B) (n : nat) :
  (forall k, (k < n)%nat -> R (f k) (g k)) ->
  Forall2 R (map f (seq 0 n)) (map g (seq 0 n)).
Proof.
  intros H.
  assert (G : forall s, (forall k, In k s -> (k < n)%nat) ->
                        Forall2 R (map f s) (map g s)).
  { induction s as [| k s IH]; intros Hs; simpl; constructor.
    - apply H, Hs. now left.
    - apply IH. intros k' Hk'. apply Hs. now right. }
  apply G. intros k Hk. apply in_seq in Hk. lia.
Qed.

(** X11.  When a call for [2 * n] points succeeds, so does the call for [n]
    points with the same bounds and offset, and its point of index [i] is
    the point of index [2 * i + 1] of the finer call: halving the angular
    step keeps the points already placed. *)
Theorem doubling_refines (n : Z) (offset : point) (minimum maximum : Z)
    (r2 : list point) :
  (1 <= n)%Z ->
  coordinate_placement (2 * n) offset minimum maximum = Ok r2 ->
  exists r,
    coordinate_placement n offset minimum maximum = Ok r
    /\ forall i : nat,
         (Z.of_nat i < n)%Z -> nth_error r i = nth_error r2 (2 * i + 1).
Proof.
  intros Hn Hr2.
  apply coordinate_placement_ok_inv in Hr2.
  destruct Hr2 as (core2 & Hcore2 & -> & _).
  pose proof (placed_points_ok_inv _ _ _ _ Hcore2) as HF.
  assert (Hlen : Z.of_nat (length core2) = (2 * n)%Z)
    by (apply placed_points_length with minimum maximum; [lia | assumption]).
  set (core := map (fun k => nth (2 * k + 1) core2 origin)
                 (seq 0 (Z.to_nat n))).
  assert (Hcore : placed_points n minimum maximum = Ok core).
  { apply placed_points_ok_intro.
    assert (Er : range 0 n 1
                 = map (fun k => (0 + Z.of_nat k * 1)%Z)
                     (seq 0 (Z.to_nat n))).
    { unfold range, range_len.
      destruct (Z.ltb_spec 0 1) as [_ | H01]; [| lia].
      destruct (Z.ltb_spec 0 n); [| lia].
      rewrite Z.div_1_r. do 2 f_equal. lia. }
    rewrite Er. unfold core. apply Forall2_map_seq.
    intros k Hk.
    assert (Hk2 : (Z.of_nat (2 * k + 1) < 2 * n)%Z) by lia.
    pose proof (nth_error_range_lt (2 * n) (2 * k + 1) Hk2) as Hnth.
    destruct (Forall2_nth_error_l _ _ _ HF _ _ Hnth) as (p & Hp & Hplace).
    rewrite (nth_error_nth _ _ _ Hp).
    replace (Z.of_nat (2 * k + 1)) with (2 * Z.of_nat k + 1)%Z in Hplace
      by lia.
    rewrite angle_of_double in Hplace by assumption.
    replace (0 + Z.of_nat k * 1)%Z with (Z.of_nat k) by lia.
    exact Hplace. }
  exists (apply_offset offset core).
  split; [apply coordinate_placement_ok; [lia | exact Hcore] |].
  intros i Hi. unfold apply_offset. rewrite !nth_error_map.
  f_equal. unfold core.
  rewrite nth_error_map, nth_error_seq.
  destruct (Nat.ltb_spec i (Z.to_nat n)); [| lia].
  simpl option_map.
  assert (Hlt : (2 * i + 1 < length core2)%nat) by lia.
  symmetry. apply nth_error_nth'. exact Hlt.
Qed.

Lemma doubling_refines_witness :
  exists r,
    coordinate_placement 2 origin 10 20 = Ok r
    /\ nth_error r 0 = Some (PInt (-10), PInt 0).
Proof.
  destruct (doubling_refines 2 origin 10 20
              (apply_offset origin
                 [ (PInt 0, PInt 10); (PInt (- 10), PInt 0);
                   (PInt 0, PInt (- 10)); (PInt 10, PInt 0) ]))
    as (r & Hr & Hi).
  - lia.
  - apply coordinate_placement_ok; [lia | apply (placed_points_4 10 20)].
  - exists r. split; [exact Hr |]. rewrite (Hi 0%nat ltac:(lia)).
    reflexivity.
Defined.

(* ================================================================== *)
(** ** The selection of the best candidate *)

(** [integer_gap] is the distance to a nearest integer. *)
Lemma integer_gap_least (u : R) (m : Z) : integer_gap u <= Rabs (u - IZR m).
Proof.
  unfold integer_gap.
  pose proof (Zfloor_bound u) as [Hf1 Hf2].
  pose proof (Zceil_bound u) as [Hc1 Hc2].
  destruct (Z_le_gt_dec m (Zfloor u)) as [Hm | Hm].
  - apply IZR_le in Hm.
    apply Rle_trans with (u - IZR (Zfloor u)); [apply Rmin_l |].
    rewrite Rabs_right; lra.
  - assert (Hm' : (Zceil u <= m)%Z) by (destruct (Zceil_Zfloor u); lia).
    apply IZR_le in Hm'.
    apply Rle_trans with (IZR (Zceil u) - u); [apply Rmin_r |].
    rewrite Rabs_left1; lra.
Qed.

Lemma integer_gap_attained (u : R) :
  exists m : Z, integer_gap u = Rabs (u - IZR m).
Proof.
  unfold integer_gap.
  pose proof (Zfloor_bound u) as [Hf1 Hf2].
  pose proof (Zceil_bound u) as [Hc1 Hc2].
  unfold Rmin. destruct (Rle_dec _ _).
  - exists (Zfloor u). rewrite Rabs_right; lra.
  - exists (Zceil u). rewrite Rabs_left1; lra.
Qed.

Lemma integer_gap_near (u : R) (m : Z) :
  Rabs (u - IZR m) <= 1 / 2 -> integer_gap u = Rabs (u - IZR m).
Proof.
  intros H. apply Rle_antisym; [apply integer_gap_least |].
  destruct (integer_gap_attained u) as (k & ->).
  destruct (Z.eq_dec k m) as [-> | Hk]; [lra |].
  assert (Hd : 1 <= Rabs (IZR k - IZR m)).
  { rewrite <- minus_IZR, <- abs_IZR. apply IZR_le. lia. }
  replace (IZR k - IZR m) with ((u - IZR m) - (u - IZR k)) in Hd by ring.
  pose proof (Rabs_triang (u - IZR m) (- (u - IZR k))) as Ht.
  rewrite Rabs_Ropp in Ht. unfold Rminus in Hd at 1. lra.
Qed.







(* ================================================================== *)
(** ** A call with nine points between the radii 1 and 3 *)

(** The tangent of 20 degrees, from [tan 60 = sqrt 3] and the addition
    formulas. *)
Lemma tan_PI9_bounds : 9 / 25 < Rtrigo1.tan (PI / 9) < 73 / 200.
Proof.
  pose proof PI_RGT_0 as Hpi.
  set (u := Rtrigo1.tan (PI / 9)).
  set (w := R_sqrt.sqrt 3).
  assert (Hw0 : 0 < w) by (apply sqrt_lt_R0; lra).
  assert (Hw2 : w * w = 3) by (apply sqrt_sqrt; lra).
  assert (Hw : 1732 / 1000 < w < 17321 / 10000) by (split; nra).
  assert (Hu0 : 0 < u) by (apply tan_gt_0; lra).
  assert (Hu1 : u < 1 / w).
  { unfold u, w. rewrite <- tan_PI6. apply tan_increasing; lra. }
  assert (Huw : u * w < 1).
  { apply Rmult_lt_compat_r with (r := w) in Hu1; [| exact Hw0].
    unfold Rdiv in Hu1. rewrite Rmult_1_l, Rinv_l in Hu1 by lra.
    exact Hu1. }
  assert (Hu2 : 3 * (u * u) < 1) by nra.
  assert (Hc : forall y, 0 <= y < PI / 2 -> Rtrigo_def.cos y <> 0).
  { intros y Hy. assert (0 < Rtrigo_def.cos y) by (apply cos_gt_0; lra).
    lra. }
  set (t2 := Rtrigo1.tan (2 * (PI / 9))).
  assert (H2 : t2 = 2 * u / (1 - u * u)).
  { unfold t2, u. apply tan_2a; try (apply Hc; lra). fold u. lra. }
  assert (Ht2 : t2 * (1 - u * u) = 2 * u) by (rewrite H2; field; lra).
  assert (Hprod : (1 - u * t2) * (1 - u * u) = 1 - 3 * (u * u)).
  { replace ((1 - u * t2) * (1 - u * u))
      with ((1 - u * u) - u * (t2 * (1 - u * u))) by ring.
    rewrite Ht2. ring. }
  assert (Hne : 1 - u * t2 <> 0).
  { intros E. rewrite E in Hprod. lra. }
  assert (H3 : w = (u + t2) / (1 - u * t2)).
  { unfold w. rewrite <- tan_PI3.
    replace (PI / 3) with (PI / 9 + 2 * (PI / 9)) by lra.
    apply tan_plus; try (apply Hc; lra). exact Hne. }
  assert (Hw3 : w * (1 - u * t2) = u + t2).
  { rewrite H3 at 1. field. exact Hne. }
  assert (E : w * (1 - 3 * (u * u)) = 3 * u - u * u * u).
  { rewrite <- Hprod.
    replace (w * ((1 - u * t2) * (1 - u * u)))
      with (w * (1 - u * t2) * (1 - u * u)) by ring.
    rewrite Hw3.
    replace ((u + t2) * (1 - u * u))
      with (u * (1 - u * u) + t2 * (1 - u * u)) by ring.
    rewrite Ht2. ring. }
  assert (Hu3 : u < 1) by nra.
  split.
  - destruct (Rlt_dec (9 / 25) u) as [H | H]; [exact H | exfalso].
    apply Rnot_lt_le in H.
    assert (A1 : u * u <= 9 / 25 * (9 / 25)) by nra.
    assert (A2 : 3 * u - u * u * u
                 <= 3 * (9 / 25) - 9 / 25 * (9 / 25) * (9 / 25)) by nra.
    nra.
  - destruct (Rlt_dec u (73 / 200)) as [H | H]; [exact H | exfalso].
    apply Rnot_lt_le in H.
    assert (A1 : 73 / 200 * (73 / 200) <= u * u) by nra.
    assert (A2 : 3 * (73 / 200) - 73 / 200 * (73 / 200) * (73 / 200)
                 <= 3 * u - u * u * u) by nra.
    nra.
Qed.

Lemma slope_160 (a : num) :
  val a = 160 -> - (73 / 200) < slope_of a < - (9 / 25).
Proof.
  intros H. unfold slope_of. cbn [Py.tan radians val]. rewrite H.
  pose proof PI_RGT_0 as Hpi.
  replace (160 * (PI / 180)) with (PI - PI / 9) by lra.
  rewrite tan_pi_minus.
  - pose proof tan_PI9_bounds. lra.
  - assert (0 < Rtrigo_def.cos (PI / 9)) by (apply cos_gt_0; lra). lra.
Qed.

(** The first sort key of a candidate with an int coordinate. *)
Lemma key_int_x (x : Z) (v : num) :
  val (distance_to_centerpoint (PInt x) v) = integer_gap (val v).
Proof.
  rewrite val_distance_to_centerpoint. cbn [val].
  assert (E : integer_gap (IZR x) = 0) by (apply integer_gap_zero; eauto).
  rewrite E. pose proof (integer_gap_bounds (val v)).
  replace (0 ^ 2 + integer_gap (val v) ^ 2) with (integer_gap (val v) ^ 2)
    by ring.
  apply sqrt_pow2. lra.
Qed.

Lemma key_int_y (v : num) (y : Z) :
  val (distance_to_centerpoint v (PInt y)) = integer_gap (val v).
Proof.
  rewrite val_distance_to_centerpoint. cbn [val].
  assert (E : integer_gap (IZR y) = 0) by (apply integer_gap_zero; eauto).
  rewrite E. pose proof (integer_gap_bounds (val v)).
  replace (integer_gap (val v) ^ 2 + 0 ^ 2) with (integer_gap (val v) ^ 2)
    by ring.
  apply sqrt_pow2. lra.
Qed.

(** At 160 degrees the pool holds [(-1, u)], [(-2, 2u)] and [(-1/u, 1)],
    with [u = tan 20]; the last one is nearest to a lattice point, and it
    rounds to [(-3, 1)]. *)
Lemma place_160 (a : num) :
  val a = 160 -> place_angle 1 3 a [] = Ok [(PInt (-3), PInt 1)].
Proof.
  intros Ha. pose proof (slope_160 a Ha) as Hs.
  assert (Hrange : 0 < val a < 360) by lra.
  assert (Hax : on_axis a = false)
    by (apply on_axis_false; rewrite Ha; repeat split; lra).
  assert (Hg : coordinate_generator 1 3 a
               = Some [ x_generator (-1) (- 3) 1 3 (Py.tan (radians a)) (-1);
                        y_generator 1 3 1 3 (Py.tan (radians a)) 1 ])
    by (apply coordinate_generator_q2; lra).
  set (q := 1 / slope_of a).
  assert (Hqs : q * slope_of a = 1) by (unfold q; field; lra).
  assert (Hq : - (25 / 9) < q < - (200 / 73)) by (split; nra).
  assert (Hin3 : In (truediv (PInt 1) (Py.tan (radians a)), PInt 1)
                   (pool_of [ x_generator (-1) (- 3) 1 3
                                (Py.tan (radians a)) (-1);
                              y_generator 1 3 1 3 (Py.tan (radians a)) 1 ])).
  { unfold pool_of. cbn [concat]. apply in_or_app. right.
    apply in_or_app. left. apply y_candidate.
    - change (val (Py.tan (radians a))) with (slope_of a). lra.
    - apply range_up; lia.
    - change (val (Py.tan (radians a))) with (slope_of a). fold q. nra. }
  assert (Hk3 : val (distance_to_centerpoint
                       (truediv (PInt 1) (Py.tan (radians a))) (PInt 1))
                = 3 + q).
  { rewrite key_int_y. unfold truediv. cbn [val].
    change (val (Py.tan (radians a))) with (slope_of a). fold q.
    rewrite (integer_gap_near q (-3)).
    - rewrite Rabs_right; lra.
    - rewrite Rabs_right; lra. }
  destruct (general_case_nonempty 1 3 a _ [] Hg) as (c & Hin & Hle & Hok).
  { intros Hnil. rewrite Hnil in Hin3. contradiction. }
  specialize (Hle _ Hin3).
  unfold key_le, candidate_key, custom_sort in Hle. cbn [fst snd] in Hle.
  rewrite Hk3 in Hle.
  pose proof (pool_candidate _ _ _ _ _ Hg Hin) as [_ Hb].
  apply in_bounds_iff in Hb. unfold norm2 in Hb.
  unfold place_angle. rewrite Hax, Hok. cbn [app]. do 2 f_equal.
  destruct (pool_shape _ _ _ _ _ Hrange Hax Hg Hin)
    as [(x & -> & Hx) | (y & -> & Hy)].
  - exfalso. cbn [fst snd] in Hle, Hb. rewrite key_int_x in Hle.
    cbn [val] in Hle, Hb.
    unfold x_scanned in Hx.
    destruct Hx as [[Hx _] | [_ Hx]]; [lra |].
    assert (Hc : x = (-1)%Z \/ x = (-2)%Z) by lia.
    destruct Hc as [-> | ->].
    + rewrite (integer_gap_near _ 0) in Hle.
      * rewrite Rabs_right in Hle; nra.
      * rewrite Rabs_right; lra.
    + rewrite (integer_gap_near _ 1) in Hle.
      * rewrite Rabs_left1 in Hle; nra.
      * rewrite Rabs_left1; lra.
  - cbn [val fst snd] in Hb.
    unfold y_scanned in Hy.
    destruct Hy as [[_ Hy] | [Hy _]]; [| lra].
    assert (Hc : y = 1%Z \/ y = 2%Z) by lia.
    destruct Hc as [-> | ->].
    + unfold round_point. cbn [fst snd round]. fold q.
      rewrite (round_half_even_eq q (-3)) by lra. reflexivity.
    + exfalso. replace (2 / slope_of a) with (2 * q) in Hb
        by (unfold q; field; lra).
      nra.
Qed.

(** Between the radii 1 and 3 every angle that is not on an axis has a
    candidate: the first one of the x-scan when the slope is small, the
    first one of the y-scan when it is large. *)
Lemma place_angle_1_3 (a : num) :
  0 < val a < 360 -> on_axis a = false ->
  exists p, place_angle 1 3 a [] = Ok [p].
Proof.
  intros Ha Hax.
  pose proof (slope_nonzero a Ha Hax) as Hs.
  assert (Hs2 : 0 < slope_of a * slope_of a) by nra.
  set (q := 1 / slope_of a).
  assert (Hqs : q * slope_of a = 1) by (unfold q; field; lra).
  assert (Hx : forall lo hi step x,
             slope_of a * slope_of a < 8 ->
             In x (range lo hi step) -> (x = 1 \/ x = -1)%Z ->
             In (PInt x, mul (Py.tan (radians a)) (PInt x))
               (x_generator lo hi 1 3 (Py.tan (radians a)) step)).
  { intros lo hi step x Hlt Hr Hx1. apply x_candidate; [exact Hr |].
    change (val (Py.tan (radians a))) with (slope_of a).
    destruct Hx1 as [-> | ->]; split; nra. }
  assert (Hy : forall lo hi step y,
             8 <= slope_of a * slope_of a ->
             In y (range lo hi step) -> (y = 1 \/ y = -1)%Z ->
             In (truediv (PInt y) (Py.tan (radians a)), PInt y)
               (y_generator lo hi 1 3 (Py.tan (radians a)) step)).
  { intros lo hi step y Hge Hr Hy1. apply y_candidate; [exact Hs | exact Hr |].
    change (val (Py.tan (radians a))) with (slope_of a).
    assert (Hq2 : 0 < q * q <= 1 / 8) by (split; nra).
    destruct Hy1 as [-> | ->].
    - fold q. nra.
    - replace (-1 / slope_of a) with (- q) by (unfold q; field; lra). nra. }
  pose proof Hax as Hax'. apply on_axis_false in Hax'.
  destruct Hax' as (_ & H90 & H180 & H270 & _).
  destruct (Rlt_dec (slope_of a * slope_of a) 8) as [Hlt | Hge];
    [| apply Rnot_lt_le in Hge];
    (destruct (Rlt_dec (val a) 90) as [Hq1 | Hq1];
     [| destruct (Rlt_dec (val a) 180) as [Hq2 | Hq2];
        [| destruct (Rlt_dec (val a) 270) as [Hq3 | Hq3]]]);
    (eapply place_angle_some;
     [ exact Hax
     | first [ apply coordinate_generator_q1; lra
             | apply coordinate_generator_q2; lra
             | apply coordinate_generator_q3; lra
             | apply coordinate_generator_q4; lra ]
     | unfold pool_of; cbn [concat] ]).
  - apply in_or_app. left.
    apply (Hx _ _ _ 1%Z); [exact Hlt | apply range_up; lia | lia].
  - apply in_or_app. left.
    apply (Hx _ _ _ (-1)%Z); [exact Hlt | apply range_down; lia | lia].
  - apply in_or_app. left.
    apply (Hx _ _ _ (-1)%Z); [exact Hlt | apply range_down; lia | lia].
  - apply in_or_app. left.
    apply (Hx _ _ _ 1%Z); [exact Hlt | apply range_up; lia | lia].
  - apply in_or_app. right. apply in_or_app. left.
    apply (Hy _ _ _ 1%Z); [exact Hge | apply range_up; lia | lia].
  - apply in_or_app. right. apply in_or_app. left.
    apply (Hy _ _ _ 1%Z); [exact Hge | apply range_up; lia | lia].
  - apply in_or_app. right. apply in_or_app. left.
    apply (Hy _ _ _ (-1)%Z); [exact Hge | apply range_down; lia | lia].
  - apply in_or_app. right. apply in_or_app. left.
    apply (Hy _ _ _ (-1)%Z); [exact Hge | apply range_down; lia | lia].
Qed.

Lemma placed_points_9_1_3 :
  exists p0 p1 p2 p4 p5 p6 p7,
    placed_points 9 1 3
    = Ok [ p0; p1; p2; (PInt (-3), PInt 1); p4; p5; p6; p7;
           (PInt 1, PInt 0) ].
Proof.
  assert (H : forall i, (0 <= i < 8)%Z ->
                        exists p, place_angle 1 3 (angle_of 9 i) [] = Ok [p]).
  { intros i Hi.
    assert (Hv : val (angle_of 9 i) = 40 * IZR (i + 1))
      by (rewrite val_angle_of; lra).
    assert (Hc : (i = 0 \/ i = 1 \/ i = 2 \/ i = 3 \/ i = 4 \/ i = 5
                  \/ i = 6 \/ i = 7)%Z) by lia.
    apply place_angle_1_3.
    - rewrite Hv.
      assert (1 <= IZR (i + 1) <= 8)
        by (split; apply IZR_le; lia).
      lra.
    - apply on_axis_false. rewrite Hv.
      repeat destruct Hc as [-> | Hc]; try subst i; simpl Z.add;
        repeat split; lra. }
  destruct (H 0%Z ltac:(lia)) as (p0 & H0).
  destruct (H 1%Z ltac:(lia)) as (p1 & H1).
  destruct (H 2%Z ltac:(lia)) as (p2 & H2).
  destruct (H 4%Z ltac:(lia)) as (p4 & H4).
  destruct (H 5%Z ltac:(lia)) as (p5 & H5).
  destruct (H 6%Z ltac:(lia)) as (p6 & H6).
  destruct (H 7%Z ltac:(lia)) as (p7 & H7).
  exists p0, p1, p2, p4, p5, p6, p7.
  apply placed_points_ok_intro.
  change (range 0 9 1)
    with [0%Z; 1%Z; 2%Z; 3%Z; 4%Z; 5%Z; 6%Z; 7%Z; 8%Z].
  repeat constructor; try assumption.
  - apply place_160. angle_value.
  - axis_iteration 360.
Qed.

(** C3.  [coordinate_placement(9, (0, 0), 1, 3)] returns nine points.  The
    point of index 3, placed for the angle of 160 degrees, which is not on
    an axis, is [(-3, 1)]: its distance from the origin is the square root
    of 10, more than the maximum 3.  The candidate [(-1 / tan 20, 1)], at a
    distance below 3, passed the bounds test, and [round] moved it out. *)
Theorem placed_point_beyond_maximum :
  exists r,
    coordinate_placement 9 origin 1 3 = Ok r
    /\ length r = 9%nat
    /\ val (angle_of 9 3) = 160
    /\ on_axis (angle_of 9 3) = false
    /\ place_angle 1 3 (angle_of 9 3) [] = Ok [(PInt (-3), PInt 1)]
    /\ nth_error r 3 = Some (PInt (-3), PInt 1)
    /\ 3 < origin_distance (PInt (-3), PInt 1).
Proof.
  destruct placed_points_9_1_3 as (p0 & p1 & p2 & p4 & p5 & p6 & p7 & H).
  assert (Hv : val (angle_of 9 3) = 160) by angle_value.
  eexists. split; [apply coordinate_placement_ok; [lia | exact H] |].
  split; [reflexivity |].
  split; [exact Hv |].
  split; [apply on_axis_false; rewrite Hv; repeat split; lra |].
  split; [apply place_160; exact Hv |].
  split; [reflexivity |].
  unfold origin_distance. cbn [fst snd val].
  replace 3 with (R_sqrt.sqrt (3 ^ 2)) at 1 by (apply sqrt_pow2; lra).
  apply sqrt_lt_1_alt. lra.
Qed.
